(** * MAVLink JavaScript runtime emitted by [mavgen_javascript.py]

    A shallow embedding of the generator [pymavlink/generator/mavgen_javascript.py]
    and of the JavaScript protocol engine it writes out: the X25 checksum,
    the header and message [pack], [MAVLink.prototype.decode] and the stream
    parser [parsePrefix] / [parseLength] / [parsePayload] / [parseChar] /
    [parseBuffer], followed by the properties established about them.

    JavaScript numbers that the engine handles are integers and are modelled
    in [Z]; buffers and arrays of octets are [list Z]; JavaScript objects used
    as dictionaries are [gmap]s. *)

From Stdlib Require Import ZArith Lia.
From stdpp Require Import base option list gmap strings fin_maps.

(* ===================================================================== *)
(** ** JavaScript array helpers                                           *)
(* ===================================================================== *)

Module Js.
Local Open Scope Z_scope.

(** [a.length] as a JavaScript number. *)
Definition len {A} (a : list A) : Z := Z.of_nat (length a).

(** Relative index resolution of [Array.prototype.slice] / [Buffer.slice]:
    a negative index counts from the end, everything is clamped to
    [0 .. length]. *)
Definition rel_index (n i : Z) : Z :=
  if i <? 0 then Z.max (n + i) 0 else Z.min i n.

(** [a.slice(s, e)]. *)
Definition slice {A} (a : list A) (s e : Z) : list A :=
  let k := rel_index (len a) s in
  let f := rel_index (len a) e in
  take (Z.to_nat (f - k)) (drop (Z.to_nat k) a).

(** [a.slice(s)]. *)
Definition slice_from {A} (a : list A) (s : Z) : list A :=
  slice a s (len a).

End Js.

(* ===================================================================== *)
(** ** jspack                                                             *)
(* ===================================================================== *)

Module Jspack.
Local Open Scope Z_scope.

(** Format characters that [mavfmt] can emit. *)
Inductive fmt_code :=
  | Fc | Fb | FB | Fh | FH | Fi | FI | Fq | FQ | Ff | Fd | Fs.

#[global] Instance fmt_code_eq_dec : EqDecision fmt_code.
Proof. solve_decision. Defined.

(** One item of a format string: an optional repeat count and a code
    (["4H"] is [(Some 4, FH)], ["B"] is [(None, FB)]). *)
Definition fmt_item : Type := option nat * fmt_code.

(** A format string: [bBE] is jspack's big-endian flag, which is set unless
    the string starts with ['<']. *)
Record format := Format { bBE : bool; items : list fmt_item }.

(** Field values whose JavaScript representation the spec does not fix
    (IEEE-754 [float]/[double] and the 64-bit integers): the carrier and
    the element codec are parameters of the development. *)
Class OpaqueCodec := {
  oval : Type;
  enO : fmt_code -> bool -> oval -> list Z;
  deO : fmt_code -> bool -> list Z -> oval
}.

(** JavaScript values that can occur as message field values. *)
Inductive jsval `{OpaqueCodec} :=
  | JNum (n : Z)            (* an integral number *)
  | JStr (s : list Z)       (* a string, as its char codes *)
  | JOpq (o : oval)         (* a float, double or 64-bit value *)
  | JArr (a : list Z)       (* an array of integral numbers *)
  | JUndef.                 (* undefined *)

Section Codec.
Context `{OC : OpaqueCodec}.

(** Modelled from the spec: jspack.js is copied next to the generated module
    by [generate] and is not part of the source tree.  [lenLut] gives the
    octet width of one element (spec section 6: char, int8, uint8 1 octet;
    int16, uint16 2; int32, uint32 4; int64, uint64 8; float 4; double 8). *)
Definition lenLut (c : fmt_code) : nat :=
  match c with
  | Fc | Fb | FB | Fs => 1
  | Fh | FH => 2
  | Fi | FI | Ff => 4
  | Fq | FQ | Fd => 8
  end%nat.

(** Modelled from the spec: the value range of each integer code of jspack,
    [(signed, width)]; [None] for the non-integer codes. *)
Definition int_code (c : fmt_code) : option (bool * nat) :=
  match c with
  | Fb => Some (true, 1%nat)
  | FB => Some (false, 1%nat)
  | Fh => Some (true, 2%nat)
  | FH => Some (false, 2%nat)
  | Fi => Some (true, 4%nat)
  | FI => Some (false, 4%nat)
  | _ => None
  end.

Definition int_min (signed : bool) (k : nat) : Z :=
  if signed then - 2 ^ (8 * Z.of_nat k - 1) else 0.

Definition int_max (signed : bool) (k : nat) : Z :=
  if signed then 2 ^ (8 * Z.of_nat k - 1) - 1 else 2 ^ (8 * Z.of_nat k) - 1.

Definition is_octet (b : Z) : bool := (0 <=? b) && (b <? 256).

(** Little-endian octets of [v], low octet first: [a[i] = v & 0xff; v >>= 8]. *)
Fixpoint le_bytes (k : nat) (v : Z) : list Z :=
  match k with
  | O => []
  | S k' => (v mod 256) :: le_bytes k' (v / 256)
  end.

(** Value of little-endian octets: the sum of [a[i] * 256^i]. *)
Fixpoint le_value (a : list Z) : Z :=
  match a with
  | [] => 0
  | b :: r => b + 256 * le_value r
  end.

(** Octet order on the wire for the given endianness. *)
Definition wire_order (be : bool) (a : list Z) : list Z :=
  if be then reverse a else a.

(** Modelled from the spec: encoding of one element by jspack.  Integers are
    fixed-width two's complement in the format's octet order, a [c] is the
    one octet of a one-character string.  A value of the wrong kind or
    outside the range of its code is outside the encoding rules the spec
    gives; the model reports it as a failed [Pack]. *)
Definition en_elem (c : fmt_code) (be : bool) (v : jsval) : option (list Z) :=
  match c with
  | Fc => match v with
          | JStr [ch] => if is_octet ch then Some [ch] else None
          | _ => None
          end
  | Fs => None
  | Fq | FQ | Ff | Fd =>
      match v with
      | JOpq o => let bs := enO c be o in
                  if decide (length bs = lenLut c) then Some bs else None
      | _ => None
      end
  | _ => match int_code c, v with
         | Some (sg, k), JNum n =>
             if (int_min sg k <=? n) && (n <=? int_max sg k)
             then Some (wire_order be (le_bytes k n)) else None
         | _, _ => None
         end
  end.

(** Modelled from the spec: decoding of one element from exactly
    [lenLut c] octets. *)
Definition de_elem (c : fmt_code) (be : bool) (a : list Z) : jsval :=
  match c with
  | Fc | Fs => JStr a
  | Fq | FQ | Ff | Fd => JOpq (deO c be a)
  | _ => match int_code c with
         | Some (sg, k) =>
             let rv := le_value (wire_order be a) in
             JNum (if sg && (2 ^ (8 * Z.of_nat k - 1) <=? rv)
                   then rv - 2 ^ (8 * Z.of_nat k) else rv)
         | None => JUndef
         end
  end.

(** Modelled from the spec: an [s] item of length [n] is the raw octets of
    the string, cut at [n] and padded with zero octets up to [n] ("short-padded
    implicitly by the packing rule, never length-prefixed"). *)
Definition EnString (n : nat) (v : jsval) : option (list Z) :=
  match v with
  | JStr s => if forallb is_octet s
              then Some (take n s ++ replicate (n - length s) 0) else None
  | _ => None
  end.

Definition DeString (a : list Z) : jsval := JStr a.

(** [n] elements, each from its own value. *)
Fixpoint PackSeries (c : fmt_code) (be : bool) (vs : list jsval) : option (list Z) :=
  match vs with
  | [] => Some []
  | v :: r =>
      match en_elem c be v, PackSeries c be r with
      | Some b, Some bs => Some (b ++ bs)
      | _, _ => None
      end
  end.

(** [n] elements of width [lenLut c] read from consecutive octets. *)
Fixpoint UnpackSeries (c : fmt_code) (be : bool) (n : nat) (a : list Z) : list jsval :=
  match n with
  | O => []
  | S n' => de_elem c be (take (lenLut c) a)
            :: UnpackSeries c be n' (drop (lenLut c) a)
  end.

Definition item_count (it : fmt_item) : nat := default 1%nat (fst it).

(** [jspack.CalcLength]. *)
Definition CalcLength (its : list fmt_item) : nat :=
  sum_list (map (fun it => item_count it * lenLut (snd it))%nat its).

(** Modelled from the spec: [jspack.Pack] walks the format items with an index
    into [values]; an [s] item takes one value, any other item of count [n]
    takes [n] values ("fixed-size arrays are emitted element-wise
    contiguously").  Running out of values makes it fail. *)
Fixpoint PackItems (be : bool) (its : list fmt_item) (values : list jsval)
  : option (list Z) :=
  match its with
  | [] => Some []
  | it :: rest =>
      let n := item_count it in
      match snd it with
      | Fs =>
          match values with
          | v :: vs =>
              match EnString n v, PackItems be rest vs with
              | Some b, Some bs => Some (b ++ bs)
              | _, _ => None
              end
          | [] => None
          end
      | c =>
          if decide (n <= length values)%nat then
            match PackSeries c be (take n values),
                  PackItems be rest (drop n values) with
            | Some b, Some bs => Some (b ++ bs)
            | _, _ => None
            end
          else None
      end
  end.

Definition Pack (fmt : format) (values : list jsval) : option (list Z) :=
  PackItems (bBE fmt) (items fmt) values.

(** Modelled from the spec: [jspack.Unpack] reads the items from the front of
    the octet array and fails when the array is too short for an item; the
    failure reaches the [catch] block around the call.  Octets beyond the
    last item are ignored. *)
Fixpoint UnpackItems (be : bool) (its : list fmt_item) (a : list Z)
  : option (list jsval) :=
  match its with
  | [] => Some []
  | it :: rest =>
      let n := item_count it in
      let w := (n * lenLut (snd it))%nat in
      if decide (length a < w)%nat then None
      else
        let here :=
          match snd it with
          | Fs => [DeString (take w a)]
          | c => UnpackSeries c be n (take w a)
          end in
        match UnpackItems be rest (drop w a) with
        | Some vs => Some (here ++ vs)
        | None => None
        end
  end.

Definition Unpack (fmt : format) (a : list Z) : option (list jsval) :=
  UnpackItems (bBE fmt) (items fmt) a.

End Codec.
End Jspack.

(* ===================================================================== *)
(** ** The generator: [mavfmt] and [generate]                             *)
(* ===================================================================== *)

Module Mavgen.
Import Jspack.
Local Open Scope Z_scope.

(** The keys of the [map] dictionary of [mavfmt]. *)
Inductive mavtype :=
  | float | double | char | int8_t | uint8_t | uint8_t_mavlink_version
  | int16_t | uint16_t | int32_t | uint32_t | int64_t | uint64_t.

#[global] Instance mavtype_eq_dec : EqDecision mavtype.
Proof. solve_decision. Defined.

(** Modelled from the spec: [mavparse.MAVField], the (name, primitive type,
    array length or 0) triple of the schema; mavparse.py is not part of the
    source tree. *)
Record MAVField := {
  name : string;
  type : mavtype;
  array_length : nat
}.

(** Modelled from the spec: [mavparse.MAVType], one message of the schema.
    [fields] is the declaration order, [ordered_fields] the wire order that
    mavparse computed. *)
Record MAVType := {
  msg_name : string;
  id : Z;
  fields : list MAVField;
  ordered_fields : list MAVField;
  crc_extra : Z
}.

Definition fieldnames (m : MAVType) : list string := map name (fields m).
Definition ordered_fieldnames (m : MAVType) : list string :=
  map name (ordered_fields m).

(** Modelled from the spec: [mavparse.MAVXML], the part of a parsed dialect
    file that [generate] reads. *)
Record MAVXML := {
  message : list MAVType;
  protocol_marker : Z;
  little_endian : bool
}.

(** The [map] dictionary of [mavfmt]. *)
Definition mavfmt_map (t : mavtype) : fmt_code :=
  match t with
  | float => Ff
  | double => Fd
  | char => Fc
  | int8_t => Fb
  | uint8_t => FB
  | uint8_t_mavlink_version => FB
  | int16_t => Fh
  | uint16_t => FH
  | int32_t => Fi
  | uint32_t => FI
  | int64_t => Fq
  | uint64_t => FQ
  end.

(** [mavfmt]: the struct format of one field. *)
Definition mavfmt (field : MAVField) : fmt_item :=
  if decide (array_length field <> 0%nat) then
    if decide (type field ∈ [char; int8_t; uint8_t])
    then (Some (array_length field), Fs)
    else (Some (array_length field), mavfmt_map (type field))
  else (None, mavfmt_map (type field)).

(** Python's [list.index]: position of the first equal element, [None] for
    the [ValueError] raised when there is none. *)
Fixpoint index (l : list string) (x : string) : option nat :=
  match l with
  | [] => None
  | y :: r => if decide (y = x) then Some O else S <$> index r x
  end.

(** What the emitted module knows about one message type: the properties
    its constructor sets ([format], [id], [order_map], [crc_extra], [name],
    [fieldnames]) and the field list written into its [pack] method. *)
Record msgclass := {
  c_format : format;
  c_id : Z;
  c_order_map : list nat;
  c_crc_extra : Z;
  c_name : string;
  c_fieldnames : list string;
  c_ordered_fieldnames : list string
}.

(** The per-message loop of [generate]: [fmtstr] is ['<'] or ['>'] followed
    by [mavfmt] of the ordered fields, [order_map[i]] is the index of
    [fieldnames[i]] among the ordered field names. *)
Definition generate_message (little : bool) (m : MAVType) : option msgclass :=
  order_map ← mapM (index (ordered_fieldnames m)) (fieldnames m);
  Some {| c_format := Format (negb little) (map mavfmt (ordered_fields m));
          c_id := id m;
          c_order_map := order_map;
          c_crc_extra := crc_extra m;
          c_name := msg_name m;
          c_fieldnames := fieldnames m;
          c_ordered_fieldnames := ordered_fieldnames m |}.

(** The emitted module: the marker substituted for [${PROTOCOL_MARKER}] in
    [mavlink.header.prototype.pack], the message classes, and the dictionary
    [mavlink.map] from message id to class.  A later entry of the object
    literal with the same key replaces an earlier one. *)
Record jsmodule := {
  PROTOCOL_MARKER : Z;
  messages : list msgclass;
  mavlink_map : gmap Z msgclass
}.

Definition build_map (cs : list msgclass) : gmap Z msgclass :=
  fold_left (fun acc c => <[c_id c := c]> acc) cs ∅.

(** [generate]: the messages of all files are concatenated; endianness and
    marker come from [xml[0]]. *)
Definition generate (xml : list MAVXML) : option jsmodule :=
  match xml with
  | [] => None
  | x0 :: _ =>
      cs ← mapM (generate_message (little_endian x0)) (concat (map message xml));
      Some {| PROTOCOL_MARKER := protocol_marker x0;
              messages := cs;
              mavlink_map := build_map cs |}
  end.

End Mavgen.

(* ===================================================================== *)
(** ** The emitted runtime: checksum, header, message, decode             *)
(* ===================================================================== *)

Module Mavlink.
Import Js Jspack.
Local Open Scope Z_scope.

(** The body of the [_.each] callback of [mavlink.x25Crc].  On integers the
    bit operations of JavaScript and of [Z] agree on the sixteen low bits
    that the final mask keeps. *)
Definition x25_step (crc e : Z) : Z :=
  let tmp := Z.lxor e (Z.land crc 0xff) in
  let tmp := Z.land (Z.lxor tmp (Z.shiftl tmp 4)) 0xff in
  let crc := Z.lxor (Z.lxor (Z.lxor (Z.shiftr crc 8) (Z.shiftl tmp 8))
                            (Z.shiftl tmp 3)) (Z.shiftr tmp 4) in
  Z.land crc 0xffff.

(** [crc || 0xffff] for an argument that is omitted ([None]) or a number. *)
Definition crc_or_default (crc : option Z) : Z :=
  match crc with
  | Some c => if c =? 0 then 0xffff else c
  | None => 0xffff
  end.

(** [mavlink.x25Crc(buffer, crc)]. *)
Definition x25Crc (buffer : list Z) (crc : option Z) : Z :=
  fold_left x25_step buffer (crc_or_default crc).

(** The checksum as the spec words it (section 4.1): [crc = seed], then one
    update per octet, the seed taken as given. *)
Fixpoint crc16 (bytes : list Z) (seed : Z) : Z :=
  match bytes with
  | [] => seed
  | b :: r =>
      let tmp := Z.lxor b (Z.land seed 0xFF) in
      let tmp := Z.land (Z.lxor tmp (Z.shiftl tmp 4)) 0xFF in
      let crc := Z.lxor (Z.lxor (Z.lxor (Z.shiftr seed 8) (Z.shiftl tmp 8))
                                (Z.shiftl tmp 3)) (Z.shiftr tmp 4) in
      crc16 r (Z.land crc 0xFFFF)
  end.

(** [mavlink.header]. *)
Record header := {
  h_msgId : Z;
  h_mlen : Z;
  h_seq : Z;
  h_srcSystem : Z;
  h_srcComponent : Z
}.

(** Errors thrown by the runtime, one constructor per message text, with the
    values the text interpolates. *)
Inductive js_error :=
  | BadPrefix (badPrefix : Z)
      (* "Bad prefix (..)", parsePrefix *)
  | HeaderUnpackError
      (* 'Unable to unpack MAVLink header: ..' *)
  | InvalidPrefix (magic : Z)
      (* "Invalid MAVLink prefix (..)" *)
  | InvalidLength (got expected msgId : Z)
      (* "Invalid MAVLink message length.  Got .. expected .., msgId=.." *)
  | UnknownMessageID (msgId : Z)
      (* "Unknown MAVLink message ID (..)" *)
  | CrcUnpackError
      (* "Unable to unpack MAVLink CRC: .." *)
  | InvalidCrc (msgId received calculated : Z)
      (* 'invalid MAVLink CRC in msgID .., got 0x.. checksum, calculated ..' *)
  | PayloadUnpackError (msgId payloadLength : Z)
      (* 'Unable to unpack MAVLink payload type=.. format=.. payloadLength=..' *)
  | OutsideModel.
      (* an unpacked value of a shape no format used here produces *)

#[global] Instance js_error_eq_dec : EqDecision js_error.
Proof. solve_decision. Defined.

(** The [MAVLink] connection object.  The constructor also stores [logger],
    [have_prefix_error], [little_endian], [crc_extra], [sort_fields] and
    [startup_time]; no method reads or writes them.

    [file] is the transport that [send] writes to.  The constructor does not
    set the property: it is [None] until the caller attaches a transport,
    and then holds the frames handed to [file.write] so far, oldest
    first. *)
Record MAVLink := mkMAVLink {
  seq : Z;
  buf : list Z;
  bufInError : list Z;
  srcSystem : Z;
  srcComponent : Z;
  expected_length : Z;
  protocol_marker : Z;
  total_packets_sent : Z;
  total_bytes_sent : Z;
  total_packets_received : Z;
  total_bytes_received : Z;
  total_receive_errors : Z;
  file : option (list (list Z))
}.

(** [new MAVLink(logger, srcSystem, srcComponent)]. *)
Definition new_MAVLink (sys comp : option Z) : MAVLink :=
  {| seq := 0; buf := []; bufInError := [];
     srcSystem := default 0 sys; srcComponent := default 0 comp;
     expected_length := 6; protocol_marker := 254;
     total_packets_sent := 0; total_bytes_sent := 0;
     total_packets_received := 0; total_bytes_received := 0;
     total_receive_errors := 0; file := None |}.

Definition with_seq (v : Z) (s : MAVLink) : MAVLink :=
  mkMAVLink v (buf s) (bufInError s) (srcSystem s) (srcComponent s)
    (expected_length s) (protocol_marker s) (total_packets_sent s)
    (total_bytes_sent s) (total_packets_received s) (total_bytes_received s)
    (total_receive_errors s) (file s).
Definition with_buf (v : list Z) (s : MAVLink) : MAVLink :=
  mkMAVLink (seq s) v (bufInError s) (srcSystem s) (srcComponent s)
    (expected_length s) (protocol_marker s) (total_packets_sent s)
    (total_bytes_sent s) (total_packets_received s) (total_bytes_received s)
    (total_receive_errors s) (file s).
Definition with_bufInError (v : list Z) (s : MAVLink) : MAVLink :=
  mkMAVLink (seq s) (buf s) v (srcSystem s) (srcComponent s)
    (expected_length s) (protocol_marker s) (total_packets_sent s)
    (total_bytes_sent s) (total_packets_received s) (total_bytes_received s)
    (total_receive_errors s) (file s).
Definition with_expected_length (v : Z) (s : MAVLink) : MAVLink :=
  mkMAVLink (seq s) (buf s) (bufInError s) (srcSystem s) (srcComponent s)
    v (protocol_marker s) (total_packets_sent s)
    (total_bytes_sent s) (total_packets_received s) (total_bytes_received s)
    (total_receive_errors s) (file s).
Definition with_total_packets_sent (v : Z) (s : MAVLink) : MAVLink :=
  mkMAVLink (seq s) (buf s) (bufInError s) (srcSystem s) (srcComponent s)
    (expected_length s) (protocol_marker s) v
    (total_bytes_sent s) (total_packets_received s) (total_bytes_received s)
    (total_receive_errors s) (file s).
Definition with_total_bytes_sent (v : Z) (s : MAVLink) : MAVLink :=
  mkMAVLink (seq s) (buf s) (bufInError s) (srcSystem s) (srcComponent s)
    (expected_length s) (protocol_marker s) (total_packets_sent s)
    v (total_packets_received s) (total_bytes_received s)
    (total_receive_errors s) (file s).
Definition with_total_packets_received (v : Z) (s : MAVLink) : MAVLink :=
  mkMAVLink (seq s) (buf s) (bufInError s) (srcSystem s) (srcComponent s)
    (expected_length s) (protocol_marker s) (total_packets_sent s)
    (total_bytes_sent s) v (total_bytes_received s)
    (total_receive_errors s) (file s).
Definition with_total_bytes_received (v : Z) (s : MAVLink) : MAVLink :=
  mkMAVLink (seq s) (buf s) (bufInError s) (srcSystem s) (srcComponent s)
    (expected_length s) (protocol_marker s) (total_packets_sent s)
    (total_bytes_sent s) (total_packets_received s) v
    (total_receive_errors s) (file s).
Definition with_total_receive_errors (v : Z) (s : MAVLink) : MAVLink :=
  mkMAVLink (seq s) (buf s) (bufInError s) (srcSystem s) (srcComponent s)
    (expected_length s) (protocol_marker s) (total_packets_sent s)
    (total_bytes_sent s) (total_packets_received s) (total_bytes_received s)
    v (file s).
Definition with_file (v : option (list (list Z))) (s : MAVLink) : MAVLink :=
  mkMAVLink (seq s) (buf s) (bufInError s) (srcSystem s) (srcComponent s)
    (expected_length s) (protocol_marker s) (total_packets_sent s)
    (total_bytes_sent s) (total_packets_received s) (total_bytes_received s)
    (total_receive_errors s) v.

(** The format strings written in the runtime. *)
Definition fmt_BBBBBB : format := Format true (replicate 6 (None, FB)).
Definition fmt_cBBBBB : format :=
  Format true ((None, Fc) :: replicate 5 (None, FB)).
Definition fmt_BB : format := Format true (replicate 2 (None, FB)).
Definition fmt_lt_H : format := Format false [(None, FH)].

Section Runtime.
Context `{OC : OpaqueCodec}.
Variable G : Mavgen.jsmodule.

(** The property names that the runtime itself uses on a message object:
    those the generated constructor sets, those [pack] and [decode] attach,
    the two methods found through the prototype, and [__proto__]. *)
Definition own_properties : list string :=
  ["format"; "id"; "order_map"; "crc_extra"; "name"; "fieldnames";
   "payload"; "header"; "msgbuf"; "crc"; "set"; "pack"; "__proto__"].

(** No field of the class, declared or in wire order, bears one of these
    names. *)
Definition own_names_free (c : Mavgen.msgclass) : Prop :=
  Forall (fun e => e ∉ own_properties)
    (Mavgen.c_fieldnames c ++ Mavgen.c_ordered_fieldnames c).

(** A message object: the class it was constructed from, its field
    properties, and the properties [pack] and [decode] attach.

    In the source all of these are properties of one JavaScript object, and
    [set] writes [this[e]] for every field name [e]: a field named [id],
    [payload], [msgbuf], ... shares the property of that name.  The record
    keeps the field properties in a map of their own, which is the object of
    the source exactly for the classes that are [own_names_free]; what is
    proved for all classes below either carries that hypothesis or concerns
    the properties that [decode] assigns after its [set]. *)
Record message := {
  m_class : Mavgen.msgclass;
  m_fields : gmap string jsval;
  m_payload : option (list Z);
  m_header : option header;
  m_msgbuf : option (list Z);
  m_crc : option (list jsval)
}.

(** [args[i]], [undefined] beyond the end. *)
Definition arg_at (args : list jsval) (i : nat) : jsval :=
  default JUndef (args !! i).

(** [mavlink.message.prototype.set]: [this[e] = args[i]] for each field name
    [e] at index [i], starting at index [i0].  The writes go to the field
    properties; for a field name that is also one of [own_properties] the
    source overwrites that property of the object, which the record does
    not show (see [message]). *)
Fixpoint set_from (i0 : nat) (names : list string) (args : list jsval)
  (props : gmap string jsval) : gmap string jsval :=
  match names with
  | [] => props
  | e :: r => set_from (S i0) r args (<[e := arg_at args i0]> props)
  end.

Definition set (this : message) (args : list jsval) : message :=
  {| m_class := m_class this;
     m_fields := set_from 0 (Mavgen.c_fieldnames (m_class this)) args (m_fields this);
     m_payload := m_payload this; m_header := m_header this;
     m_msgbuf := m_msgbuf this; m_crc := m_crc this |}.

(** [new mavlink.messages.X(a1, a2, ...)]: the constructor sets the class
    properties and calls [this.set(arguments)]. *)
Definition new_message (c : Mavgen.msgclass) (arguments : list jsval) : message :=
  set {| m_class := c; m_fields := ∅; m_payload := None; m_header := None;
         m_msgbuf := None; m_crc := None |} arguments.

(** [this.f], [undefined] when the property is absent. *)
Definition field_value (this : message) (f : string) : jsval :=
  default JUndef (m_fields this !! f).

(** [mavlink.header.prototype.pack]. *)
Definition header_pack (h : header) : option (list Z) :=
  Pack fmt_BBBBBB
    [JNum (Mavgen.PROTOCOL_MARKER G); JNum (h_mlen h); JNum (h_seq h);
     JNum (h_srcSystem h); JNum (h_srcComponent h); JNum (h_msgId h)].

(** [mavlink.message.prototype.pack(mav, crc_extra, payload)]: returns the
    updated message object and the frame [msgbuf].  [this.id] is the id that
    the constructor stored, the id of the class; the assignments to
    [this.payload], [this.header] and [this.msgbuf] leave the field
    properties alone.  Both hold of the source for a class that is
    [own_names_free] (see [message]). *)
Definition message_pack (this : message) (mav : MAVLink) (crc_extra : Z)
  (payload : list Z) : option (message * list Z) :=
  let hdr := {| h_msgId := Mavgen.c_id (m_class this); h_mlen := len payload;
                h_seq := seq mav; h_srcSystem := srcSystem mav;
                h_srcComponent := srcComponent mav |} in
  hp ← header_pack hdr;
  let msgbuf := hp ++ payload in
  let crc := x25Crc (slice_from msgbuf 1) None in
  let crc := x25Crc [crc_extra] (Some crc) in
  cb ← Pack fmt_lt_H [JNum crc];
  let msgbuf := msgbuf ++ cb in
  Some ({| m_class := m_class this; m_fields := m_fields this;
           m_payload := Some payload; m_header := Some hdr;
           m_msgbuf := Some msgbuf; m_crc := m_crc this |}, msgbuf).

(** [mavlink.messages.X.prototype.pack(mav)]: packs the fields in wire
    order and hands the payload to [message_pack].  [None] when [jspack.Pack]
    does not produce an octet array. *)
Definition pack (this : message) (mav : MAVLink) : option (message * list Z) :=
  payload ← Pack (Mavgen.c_format (m_class this))
               (map (field_value this) (Mavgen.c_ordered_fieldnames (m_class this)));
  message_pack this mav (Mavgen.c_crc_extra (m_class this)) payload.

(** The reordering loop of [decode]: [args[i] = t[decoder.order_map[i]]] for
    every index [i] of [t]. *)
Definition reorder (order_map : list nat) (t : list jsval) : list jsval :=
  imap (fun i _ => default JUndef (order_map !! i ≫= fun j => t !! j)) t.

(** [MAVLink.prototype.decode(msgbuf)].  [new decoder.type(args)] followed by
    [m.set.call(m, args)]: the constructor's own [set] sees the single
    argument [args] and every field property it writes is written again by
    the second [set]; neither call throws, so the error of the [try] block
    around them ('Unable to instantiate MAVLink message') has no
    constructor. *)
Definition decode (msgbuf : list Z) : js_error + message :=
  match Unpack fmt_cBBBBB (slice msgbuf 0 6) with
  | None => inl HeaderUnpackError
  | Some [JStr [magic]; JNum mlen; JNum seq; JNum srcSystem; JNum srcComponent;
          JNum msgId] =>
      if negb (magic =? 254) then inl (InvalidPrefix magic)
      else if negb (mlen =? len msgbuf - 8)
      then inl (InvalidLength (len msgbuf - 8) mlen msgId)
      else
        match Mavgen.mavlink_map G !! msgId with
        | None => inl (UnknownMessageID msgId)
        | Some decoder =>
            match Unpack fmt_lt_H (slice_from msgbuf (len msgbuf - 2)) with
            | None => inl CrcUnpackError
            | Some [JNum received] =>
                let messageChecksum :=
                  x25Crc (slice msgbuf 1 (len msgbuf - 2)) None in
                let messageChecksum :=
                  x25Crc [Mavgen.c_crc_extra decoder] (Some messageChecksum) in
                if negb (received =? messageChecksum)
                then inl (InvalidCrc msgId received messageChecksum)
                else
                  match Unpack (Mavgen.c_format decoder)
                          (slice msgbuf 6 (len msgbuf)) with
                  | None =>
                      inl (PayloadUnpackError msgId (len (slice msgbuf 6 (-2))))
                  | Some t =>
                      let args := reorder (Mavgen.c_order_map decoder) t in
                      let m := set (new_message decoder []) args in
                      inr {| m_class := m_class m; m_fields := m_fields m;
                             m_msgbuf := Some msgbuf;
                             m_payload := Some (slice_from msgbuf 6);
                             m_crc := Some [JNum received];
                             m_header := Some
                               {| h_msgId := msgId; h_mlen := mlen; h_seq := seq;
                                  h_srcSystem := srcSystem;
                                  h_srcComponent := srcComponent |} |}
                  end
            | Some _ => inl OutsideModel
            end
        end
  | Some _ => inl OutsideModel
  end.

(** What the parser hands to its caller: a decoded message or a
    [mavlink.messages.bad_data(data, reason)]. *)
Inductive parsed :=
  | Message (m : message)
  | bad_data (data : list Z) (reason : js_error).

(** How a call of [send] ends: it returns (no value, the function has no
    [return]), or [this.file.write(buf)] throws the [TypeError] of a
    property read on [undefined]. *)
Inductive completion :=
  | Returns
  | Throws_TypeError.

(** [MAVLink.prototype.send]: the connection and the message object after
    the call, and how the call ends.  The message is packed first; on a
    connection without [file] the call ends there, with the connection as it
    was; otherwise the frame is handed to [file.write] and the counters are
    updated.  [None] when [pack] yields no frame. *)
Definition send (this : MAVLink) (mavmsg : message)
  : option (MAVLink * message * completion) :=
  '(mavmsg', buf) ← pack mavmsg this;
  match file this with
  | None => Some (this, mavmsg', Throws_TypeError)
  | Some written =>
      let this := with_file (Some (written ++ [buf])) this in
      let this := with_seq ((seq this + 1) mod 256) this in
      let this := with_total_packets_sent (total_packets_sent this + 1) this in
      let this := with_total_bytes_sent (total_bytes_sent this + len buf) this in
      Some (this, mavmsg', Returns)
  end.

(** [MAVLink.prototype.bytes_needed]. *)
Definition bytes_needed (this : MAVLink) : Z :=
  let ret := expected_length this - len (buf this) in
  if ret <=? 0 then 1 else ret.

(** [MAVLink.prototype.pushBuffer]; [None] is a call without data. *)
Definition pushBuffer (this : MAVLink) (data : option (list Z)) : MAVLink :=
  match data with
  | Some d =>
      let this := with_buf (buf this ++ d) this in
      with_total_bytes_received (total_bytes_received this + len d) this
  | None => this
  end.

(** [MAVLink.prototype.parsePrefix]: the state after the call and the error
    thrown, if any. *)
Definition parsePrefix (this : MAVLink) : MAVLink * option js_error :=
  match buf this with
  | b0 :: _ =>
      if negb (b0 =? 254) then
        let badPrefix := b0 in
        let this := with_bufInError (slice (buf this) 0 1) this in
        let this := with_buf (slice_from (buf this) 1) this in
        let this := with_expected_length 6 this in
        (this, Some (BadPrefix badPrefix))
      else (this, None)
  | [] => (this, None)
  end.

(** [MAVLink.prototype.parseLength]. *)
Definition parseLength (this : MAVLink) : MAVLink * option js_error :=
  if 2 <=? len (buf this) then
    match Unpack fmt_BB (slice (buf this) 0 2) with
    | Some [_; JNum l] => (with_expected_length (l + 8) this, None)
    | _ => (this, Some OutsideModel)
    end
  else (this, None).

(** [MAVLink.prototype.parsePayload]: the state after the call and either the
    error thrown or the value returned ([None] is [null]). *)
Definition parsePayload (this : MAVLink) : MAVLink * (js_error + option message) :=
  if (8 <=? expected_length this) && (expected_length this <=? len (buf this))
  then
    let mbuf := slice (buf this) 0 (expected_length this) in
    let this := with_buf (slice_from (buf this) (expected_length this)) this in
    let this := with_expected_length 6 this in
    match decode mbuf with
    | inr m =>
        (with_total_packets_received (total_packets_received this + 1) this,
         inr (Some m))
    | inl e => (with_bufInError mbuf this, inl e)
    end
  else (this, inr None).

(** The [try] block of [parseChar]. *)
Definition parseChar_try (this : MAVLink) (c : option (list Z))
  : MAVLink * (js_error + option message) :=
  let this := pushBuffer this c in
  match parsePrefix this with
  | (this, Some e) => (this, inl e)
  | (this, None) =>
      match parseLength this with
      | (this, Some e) => (this, inl e)
      | (this, None) => parsePayload this
      end
  end.

(** [MAVLink.prototype.parseChar]; the two [emit] calls notify listeners and
    leave the connection as it is. *)
Definition parseChar (this : MAVLink) (c : option (list Z))
  : MAVLink * option parsed :=
  match parseChar_try this c with
  | (this, inr m) => (this, Message <$> m)
  | (this, inl e) =>
      let this := with_total_receive_errors (total_receive_errors this + 1) this in
      let m := bad_data (bufInError this) e in
      (with_bufInError [] this, Some m)
  end.

(** The [while(true)] loop of [parseBuffer], bounded by [fuel] iterations. *)
Fixpoint parseBuffer_loop (fuel : nat) (this : MAVLink) : MAVLink * list parsed :=
  match fuel with
  | O => (this, [])
  | S fuel' =>
      match parseChar this None with
      | (this, None) => (this, [])
      | (this, Some m) =>
          let '(this, ret) := parseBuffer_loop fuel' this in (this, m :: ret)
      end
  end.

(** [MAVLink.prototype.parseBuffer]: [None] is [null].  Every iteration that
    yields a message removes at least one octet from [buf], so one more
    iteration than [buf] has octets reaches the [return]. *)
Definition parseBuffer (this : MAVLink) (s : list Z)
  : MAVLink * option (list parsed) :=
  match parseChar this (Some s) with
  | (this, None) => (this, None)
  | (this, Some m) =>
      let '(this, ret) := parseBuffer_loop (S (length (buf this))) this in
      (this, Some (m :: ret))
  end.

(** The messages of one [parseBuffer] result, none for [null]. *)
Definition results (r : option (list parsed)) : list parsed := default [] r.

(** Successive [parseBuffer] calls on one connection, results concatenated. *)
Fixpoint parseBuffer_chunks (this : MAVLink) (chunks : list (list Z))
  : MAVLink * list parsed :=
  match chunks with
  | [] => (this, [])
  | s :: rest =>
      let '(this, r) := parseBuffer this s in
      let '(this, rs) := parseBuffer_chunks this rest in
      (this, results r ++ rs)
  end.

End Runtime.
End Mavlink.

(* ===================================================================== *)
(** ** A concrete dialect                                                 *)
(* ===================================================================== *)

Module Dialect.
Import Js Jspack Mavgen Mavlink.
Local Open Scope Z_scope.

(** A codec for the opaque values that carries no information; the messages
    below have no field of such a type. *)
Definition unit_codec : OpaqueCodec :=
  {| oval := unit;
     enO := fun c _ _ => replicate (lenLut c) 0;
     deO := fun _ _ _ => tt |}.
#[export] Existing Instance unit_codec.

Definition fld (n : string) (t : mavtype) (k : nat) : MAVField :=
  {| name := n; type := t; array_length := k |}.

(** HEARTBEAT, message 0 of the common dialect: payload width 9,
    [crc_extra] 50. *)
Definition HEARTBEAT : MAVType :=
  {| msg_name := "HEARTBEAT"; id := 0;
     fields := [fld "type" uint8_t 0; fld "autopilot" uint8_t 0;
                fld "base_mode" uint8_t 0; fld "custom_mode" uint32_t 0;
                fld "system_status" uint8_t 0;
                fld "mavlink_version" uint8_t_mavlink_version 0];
     ordered_fields := [fld "custom_mode" uint32_t 0; fld "type" uint8_t 0;
                fld "autopilot" uint8_t 0; fld "base_mode" uint8_t 0;
                fld "system_status" uint8_t 0;
                fld "mavlink_version" uint8_t_mavlink_version 0];
     crc_extra := 50 |}.

(** A message with one [char[4]] field. *)
Definition TAG : MAVType :=
  {| msg_name := "TAG"; id := 1;
     fields := [fld "label" char 4];
     ordered_fields := [fld "label" char 4];
     crc_extra := 7 |}.

Definition dialect_xml (marker : Z) : MAVXML :=
  {| Mavgen.message := [HEARTBEAT; TAG]; Mavgen.protocol_marker := marker;
     little_endian := true |}.

Definition HEARTBEAT_class : msgclass :=
  {| c_format := Format false
       [(None, FI); (None, FB); (None, FB); (None, FB); (None, FB); (None, FB)];
     c_id := 0; c_order_map := [1; 2; 3; 0; 4; 5]%nat; c_crc_extra := 50;
     c_name := "HEARTBEAT";
     c_fieldnames := ["type"; "autopilot"; "base_mode"; "custom_mode";
                      "system_status"; "mavlink_version"];
     c_ordered_fieldnames := ["custom_mode"; "type"; "autopilot"; "base_mode";
                      "system_status"; "mavlink_version"] |}.

Definition TAG_class : msgclass :=
  {| c_format := Format false [(Some 4%nat, Fs)];
     c_id := 1; c_order_map := [0%nat]; c_crc_extra := 7; c_name := "TAG";
     c_fieldnames := ["label"]; c_ordered_fieldnames := ["label"] |}.

(** The module emitted for [dialect_xml marker]. *)
Definition dialect (marker : Z) : jsmodule :=
  {| PROTOCOL_MARKER := marker;
     messages := [HEARTBEAT_class; TAG_class];
     mavlink_map := build_map [HEARTBEAT_class; TAG_class] |}.

(** The wire protocol 1.0 dialect (marker 0xFE) and the 0.9 one (marker
    'U', 0x55). *)
Definition v10 : jsmodule := dialect 254.
Definition v09 : jsmodule := dialect 85.

(** A connection with [srcSystem = 1], [srcComponent = 1]. *)
Definition mav11 : MAVLink := new_MAVLink (Some 1) (Some 1).

(** [new mavlink.messages.heartbeat(0, 0, 0, 0, 0, 0)]. *)
Definition heartbeat0 : message :=
  new_message HEARTBEAT_class (replicate 6 (JNum 0)).

(** The HEARTBEAT frame of the scenario: header, nine zero payload octets,
    checksum 0x4843 low octet first. *)
Definition heartbeat_frame : list Z :=
  [0xFE; 0x09; 0x00; 0x01; 0x01; 0x00] ++ replicate 9 0 ++ [0x43; 0x48].

(** [new mavlink.messages.tag("ab")]. *)
Definition tag_ab : message := new_message TAG_class [JStr [97; 98]].

(** [new mavlink.messages.heartbeat(1, 2, 3, 4, 5, 6)]. *)
Definition heartbeat_1to6 : message :=
  new_message HEARTBEAT_class [JNum 1; JNum 2; JNum 3; JNum 4; JNum 5; JNum 6].

(** The connection [mav11] after the caller attached a transport to which
    nothing has been written yet. *)
Definition mav11_file : MAVLink := with_file (Some []) mav11.

(** A frame with the HEARTBEAT id whose length octet announces seven payload
    octets: header, seven zero octets, and the checksum 0x4370 of these
    octets continued over 50, low octet first. *)
Definition short_payload_frame : list Z :=
  [0xFE; 0x07; 0x00; 0x01; 0x01; 0x00] ++ replicate 7 0 ++ [0x70; 0x43].

(** A HEARTBEAT frame with [system_status = 66] and [mavlink_version = 113]:
    the checksum over header and payload is 0; continued over 50 from this
    running value it is 0x1291, the trailer of the frame. *)
Definition zero_crc_frame : list Z :=
  [0xFE; 0x09; 0x00; 0x01; 0x01; 0x00] ++ [0; 0; 0; 0; 0; 0; 0; 66; 113]
  ++ [0x91; 0x12].

(** A message with one [uint16_t[2]] field, the module emitted for a dialect
    that declares only this message, and the message object whose field
    holds the array [[1, 2]]. *)
Definition PAIR : MAVType :=
  {| msg_name := "PAIR"; id := 2;
     fields := [fld "xy" uint16_t 2];
     ordered_fields := [fld "xy" uint16_t 2];
     crc_extra := 9 |}.

Definition PAIR_class : msgclass :=
  {| c_format := Format false [(Some 2%nat, FH)];
     c_id := 2; c_order_map := [0%nat]; c_crc_extra := 9; c_name := "PAIR";
     c_fieldnames := ["xy"]; c_ordered_fieldnames := ["xy"] |}.

Definition pairs : jsmodule :=
  {| PROTOCOL_MARKER := 254;
     messages := [PAIR_class];
     mavlink_map := build_map [PAIR_class] |}.

Definition pair_12 : message := new_message PAIR_class [JArr [1; 2]].

End Dialect.

(* ===================================================================== *)
(** ** The validations of a frame                                         *)
(* ===================================================================== *)

Module Spec.
Import Js Jspack Mavgen Mavlink.
Local Open Scope Z_scope.

(** The seven ways [decode] can fail (spec section 4.2). *)
Inductive failure :=
  | HeaderUnpackFails
  | MarkerMismatch
  | LengthMismatch
  | UnknownMessage
  | ChecksumUnpackFails
  | ChecksumMismatch
  | PayloadUnpackFails.

#[global] Instance failure_eq_dec : EqDecision failure.
Proof. solve_decision. Defined.

Definition validation_order : list failure :=
  [HeaderUnpackFails; MarkerMismatch; LengthMismatch; UnknownMessage;
   ChecksumUnpackFails; ChecksumMismatch; PayloadUnpackFails].


Section Conditions.
Variable G : jsmodule.

(** Octet [i] of the frame (0 when absent). *)
Definition octet (frame : list Z) (i : nat) : Z := default 0 (frame !! i).

(** The checksum carried by the last two octets, little-endian. *)
Definition transmitted_crc (frame : list Z) : Z :=
  octet frame (length frame - 2) + 256 * octet frame (length frame - 1).

(** The checksum that [decode] recomputes and [pack] emits: [x25Crc] over
    the octets between the marker and the trailer, then
    [x25Crc([crc_extra], crc)], which continues from the running value
    unless that is 0 and then starts afresh from 0xffff. *)
Definition recomputed_crc (crc_extra : Z) (frame : list Z) : Z :=
  x25Crc [crc_extra] (Some (x25Crc (slice frame 1 (len frame - 2)) None)).



(** The payload of a frame as the spec words it (section 3): the octets
    between the six header octets and the two checksum octets. *)
Definition payload_octets (frame : list Z) : list Z :=
  slice frame 6 (len frame - 2).

(** The checksum as the spec words it (sections 4.1 and 4.2): [crc16] from
    0xFFFF over the header octets after the marker and the payload, then
    continued over [crc_extra] with the running value as seed. *)
Definition continued_crc (crc_extra : Z) (frame : list Z) : Z :=
  crc16 [crc_extra] (crc16 (slice frame 1 (len frame - 2)) 0xFFFF).

(** The seven conditions as the spec words them (section 4.2): the marker is
    the dialect's, the recomputed checksum is [continued_crc], and the
    payload that is unpacked against the format is [payload_octets]; it
    fails to unpack when it has fewer octets than the format takes. *)
Definition fails (f : failure) (frame : list Z) : bool :=
  match f with
  | HeaderUnpackFails => len frame <? 6
  | MarkerMismatch => negb (octet frame 0 =? PROTOCOL_MARKER G)
  | LengthMismatch => negb (octet frame 1 =? len frame - 8)
  | UnknownMessage =>
      match mavlink_map G !! octet frame 5 with Some _ => false | None => true end
  | ChecksumUnpackFails => len frame <? 2
  | ChecksumMismatch =>
      match mavlink_map G !! octet frame 5 with
      | Some d => negb (transmitted_crc frame =? continued_crc (c_crc_extra d) frame)
      | None => false
      end
  | PayloadUnpackFails =>
      match mavlink_map G !! octet frame 5 with
      | Some d => len (payload_octets frame)
                  <? Z.of_nat (CalcLength (items (c_format d)))
      | None => false
      end
  end.

(** The first condition of the spec, in validation order, that holds of the
    frame. *)
Definition first_failure (frame : list Z) : option failure :=
  List.find (fun f => fails f frame) validation_order.

End Conditions.
End Spec.

(* ===================================================================== *)
(** ** The parser as a function of the buffered octets                    *)
(* ===================================================================== *)

Module Stream.
Import Js Jspack Mavgen Mavlink.
Local Open Scope Z_scope.

Section Stream.
Context `{OC : OpaqueCodec}.
Variable G : jsmodule.

(** What one [parseChar()] call without data makes of the buffered octets:
    the message it returns together with the octets it leaves, or [None]
    when it returns [null] and leaves the buffer alone. *)
Definition next (b : list Z) : option (parsed * list Z) :=
  match b with
  | [] => None
  | b0 :: r =>
      if negb (b0 =? 254) then Some (bad_data [b0] (BadPrefix b0), r)
      else
        match r with
        | [] => None
        | l :: _ =>
            if (8 <=? l + 8) && (l + 8 <=? len b) then
              let mbuf := slice b 0 (l + 8) in
              Some (match decode G mbuf with
                    | inr m => Message m
                    | inl e => bad_data mbuf e
                    end, slice_from b (l + 8))
            else None
        end
  end.

(** Repeating [next] at most [fuel] times. *)
Fixpoint drain (fuel : nat) (b : list Z) : list parsed * list Z :=
  match fuel with
  | O => ([], b)
  | S fuel' =>
      match next b with
      | None => ([], b)
      | Some (m, b') => let '(ms, b'') := drain fuel' b' in (m :: ms, b'')
      end
  end.

(** Repeating [next] until it yields nothing. *)
Definition drain_all (b : list Z) : list parsed * list Z :=
  drain (S (length b)) b.

(** Is this result a [bad_data]? *)
Definition is_bad_data (m : parsed) : bool :=
  match m with bad_data _ _ => true | Message _ => false end.

(** The number of [bad_data] results. *)
Fixpoint bad_count (ms : list parsed) : Z :=
  match ms with
  | [] => 0
  | m :: r => (if is_bad_data m then 1 else 0) + bad_count r
  end.

(** Is this result a [bad_data] whose reason is the length error of
    [decode]? *)
Definition is_length_error (m : parsed) : bool :=
  match m with
  | bad_data _ (InvalidLength _ _ _) => true
  | _ => false
  end.

End Stream.
End Stream.

(* ===================================================================== *)
(** ** Field assignments and the round trip                               *)
(* ===================================================================== *)

Module Roundtrip.
Import Js Jspack Mavgen Mavlink.
Local Open Scope Z_scope.

Section Roundtrip.
Context `{OC : OpaqueCodec}.

(** A value that the format item [it] can carry.
    - An [s] item of length [n] carries a string of octets; with [exact] the
      string has exactly [n] characters, otherwise at most [n].
    - A [c] item carries a one-character string.
    - An integer item carries an integer in the range of its code.
    - An opaque item ([f], [d], [q], [Q]) carries a value that the element
      codec writes in the width of the code and reads back unchanged.
    - An item with a repeat count and a code other than [s] takes several
      values from [Pack]'s argument list; a single property value never fits
      it. *)
Definition fits (exact : bool) (be : bool) (it : fmt_item) (v : jsval) : Prop :=
  match snd it with
  | Fs =>
      exists s, v = JStr s /\ forallb is_octet s = true
                /\ if exact then length s = item_count it
                   else (length s <= item_count it)%nat
  | c =>
      match fst it with
      | Some _ => False
      | None =>
          match c with
          | Fc => exists ch, v = JStr [ch] /\ is_octet ch = true
          | Fq | FQ | Ff | Fd =>
              exists o, v = JOpq o /\ length (enO c be o) = lenLut c
                        /\ deO c be (enO c be o) = o
          | _ =>
              match int_code c with
              | Some (sg, k) =>
                  exists n, v = JNum n /\ int_min sg k <= n <= int_max sg k
              | None => False
              end
          end
      end
  end.

(** What comes back for a value packed into the item [it]: a string in an
    [s] item is padded with zero octets to the length of the item, every
    other value is itself. *)
Definition padded (it : fmt_item) (v : jsval) : jsval :=
  match snd it, v with
  | Fs, JStr s => JStr (s ++ replicate (item_count it - length s) 0)
  | _, _ => v
  end.

(** The field properties of [m], read in wire order as its [pack] method
    does, fit the items of the format of its class. *)
Definition valid_assignment (exact : bool) (m : message) : Prop :=
  Forall2 (fits exact (bBE (c_format (m_class m))))
    (items (c_format (m_class m)))
    (map (field_value m) (c_ordered_fieldnames (m_class m))).

(** [decode(pack(m))] succeeds and every declared field of the result is
    the field of [m]. *)
Definition roundtrips (G : jsmodule) (mav : MAVLink) (m : message) : Prop :=
  exists frame m',
    snd <$> pack G m mav = Some frame
    /\ decode G frame = inr m'
    /\ forall f, f ∈ c_fieldnames (m_class m) -> m_fields m' !! f = m_fields m !! f.

(** [decode(pack(m))] succeeds and the field at each wire position of the
    result is the field of [m], padded when it is a short string. *)
Definition roundtrips_padded (G : jsmodule) (mav : MAVLink) (m : message) : Prop :=
  exists frame m',
    snd <$> pack G m mav = Some frame
    /\ decode G frame = inr m'
    /\ forall j f it,
         c_ordered_fieldnames (m_class m) !! j = Some f ->
         items (c_format (m_class m)) !! j = Some it ->
         m_fields m' !! f = Some (padded it (field_value m f)).

(** The class [c] is what [generate] emits for a message [mt] whose wire
    order is a permutation of its declaration order, whose id is an octet and
    whose payload is at most 255 octets, and the module looks it up under its
    id. *)
Definition registered (G : jsmodule) (c : msgclass) : Prop :=
  mavlink_map G !! c_id c = Some c
  /\ is_octet (c_id c) = true
  /\ (CalcLength (items (c_format c)) <= 255)%nat
  /\ exists mt little,
       generate_message little mt = Some c
       /\ ordered_fields mt ≡ₚ fields mt.

(** A connection whose sequence counter and source identifiers are octets. *)
Definition octet_context (mav : MAVLink) : Prop :=
  is_octet (seq mav) = true /\ is_octet (srcSystem mav) = true
  /\ is_octet (srcComponent mav) = true.

End Roundtrip.
End Roundtrip.

(* ===================================================================== *)
(** ** The output paths of [generate]                                     *)
(* ===================================================================== *)

Module Paths.
Local Open Scope Z_scope.

Section Paths.

(** [os.sep], a string of one character on every platform. *)
Variable os_sep : Ascii.ascii.

(** [s.rfind(c)] for a needle of one character: the highest index at which
    [c] occurs in [s], [-1] when it does not occur. *)
Fixpoint rfind (s : list Ascii.ascii) (c : Ascii.ascii) : Z :=
  match s with
  | [] => -1
  | x :: r =>
      let k := rfind r c in
      if 0 <=? k then k + 1 else if decide (x = c) then 0 else -1
  end.

(** [s.endswith(suffix)]. *)
Definition endswith (s suffix : list Ascii.ascii) : bool :=
  bool_decide (suffix `suffix_of` s).

(** The [jspackFilename] that [generate] computes from [basename]. *)
Definition jspackFilename (basename : list Ascii.ascii) : list Ascii.ascii :=
  if 0 <=? rfind basename os_sep
  then take (Z.to_nat (rfind basename os_sep)) basename
       ++ String.list_ascii_of_string "/jspack.js"
  else String.list_ascii_of_string "jspack.js".

(** The [filename] that [generate] opens for writing. *)
Definition filename (basename : list Ascii.ascii) : list Ascii.ascii :=
  if endswith basename (String.list_ascii_of_string ".js")
  then basename
  else basename ++ String.list_ascii_of_string ".js".

End Paths.
End Paths.

(* ===================================================================== *)
(** ** Traffic on a connection                                            *)
(* ===================================================================== *)

Module Traffic.
Import Js Jspack Mavgen Mavlink.
Local Open Scope Z_scope.

Section Traffic.
Context `{OC : OpaqueCodec}.
Variable G : jsmodule.

(** [send] called once per message of [ms], in order, up to the first call
    that throws: the connection afterwards and how the last call ended. *)
Fixpoint send_all (this : MAVLink) (ms : list message)
  : option (MAVLink * completion) :=
  match ms with
  | [] => Some (this, Returns)
  | m :: rest =>
      '(this, _, c) ← send G this m;
      match c with
      | Returns => send_all this rest
      | Throws_TypeError => Some (this, Throws_TypeError)
      end
  end.

(** The [msgbuf] property of a result: the frame of a decoded message, the
    [data] of a [bad_data]. *)
Definition msgbuf_of (r : parsed) : list Z :=
  match r with
  | Message m => default [] (m_msgbuf m)
  | bad_data data _ => data
  end.

(** The number of decoded messages among the results. *)
Fixpoint message_count (rs : list parsed) : Z :=
  match rs with
  | [] => 0
  | Message _ :: r => 1 + message_count r
  | bad_data _ _ :: r => message_count r
  end.

(** A message that [send] can put on the wire: no field of its class bears
    the name of a property of the runtime, jspack packs its fields into at
    most 255 octets and its id is an octet. *)
Definition packable (m : message) : Prop :=
  own_names_free (m_class m)
  /\ exists payload,
       Pack (c_format (m_class m))
         (map (field_value m) (c_ordered_fieldnames (m_class m))) = Some payload
       /\ len payload < 256
       /\ is_octet (c_id (m_class m)) = true.

(** The properties of a connection that only the constructor and [send]
    write are the same in [a] and [b]. *)
Definition same_send_side (a b : MAVLink) : Prop :=
  seq b = seq a /\ srcSystem b = srcSystem a /\ srcComponent b = srcComponent a
  /\ protocol_marker b = protocol_marker a
  /\ total_packets_sent b = total_packets_sent a
  /\ total_bytes_sent b = total_bytes_sent a.

(** Every octet of a buffer is in [0 .. 255]. *)
Definition octets (a : list Z) : Prop := Forall (fun b => is_octet b = true) a.

End Traffic.
End Traffic.

(* ===================================================================== *)
(** ** Properties                                                         *)
(* ===================================================================== *)

Import Js Jspack Mavgen Mavlink.
Local Open Scope Z_scope.

(** *** Slices *)

Section SliceFacts.
Context {A : Type}.
Implicit Types a : list A.

Lemma slice_nonneg a s e :
  0 <= s -> 0 <= e ->
  slice a s e = take (Z.to_nat e - Z.to_nat s) (drop (Z.to_nat s) a).
Proof.
  intros Hs He. unfold slice, rel_index, len.
  destruct (Z.ltb_spec s 0); [lia|]. destruct (Z.ltb_spec e 0); [lia|].
  destruct (decide (s <= Z.of_nat (length a))) as [Hle|Hgt].
  - rewrite (Z.min_l s) by lia.
    destruct (decide (e <= Z.of_nat (length a))).
    + rewrite (Z.min_l e) by lia. f_equal. lia.
    + rewrite (Z.min_r e) by lia.
      rewrite !take_ge; [done | rewrite length_drop; lia | rewrite length_drop; lia].
  - rewrite (Z.min_r s) by lia.
    rewrite !drop_ge by lia. by rewrite !take_nil.
Qed.

Lemma slice_0 a e : 0 <= e -> slice a 0 e = take (Z.to_nat e) a.
Proof.
  intros He. rewrite slice_nonneg by lia. simpl. by rewrite Nat.sub_0_r.
Qed.

Lemma slice_from_nonneg a s : 0 <= s -> slice_from a s = drop (Z.to_nat s) a.
Proof.
  intros Hs. unfold slice_from. rewrite slice_nonneg by (unfold len; lia).
  apply take_ge. rewrite length_drop. unfold len. lia.
Qed.

Lemma len_app a b : len (a ++ b) = len a + len b.
Proof. unfold len. rewrite length_app. lia. Qed.

Lemma len_nonneg a : 0 <= len a.
Proof. unfold len. lia. Qed.

End SliceFacts.

(** *** jspack on the fixed formats of the runtime *)

Section FixedFormats.
Context `{OC : OpaqueCodec}.

Lemma de_elem_FB be b : de_elem FB be [b] = JNum b.
Proof.
  unfold de_elem, wire_order. simpl.
  replace (if be then reverse [b] else [b]) with [b] by (by destruct be).
  simpl. f_equal. lia.
Qed.

Lemma Unpack_cBBBBB b0 b1 b2 b3 b4 b5 :
  Unpack fmt_cBBBBB [b0; b1; b2; b3; b4; b5]
  = Some [JStr [b0]; JNum b1; JNum b2; JNum b3; JNum b4; JNum b5].
Proof.
  unfold Unpack, fmt_cBBBBB. simpl. by rewrite !Z.add_0_r.
Qed.

Lemma Unpack_BB b0 b1 : Unpack fmt_BB [b0; b1] = Some [JNum b0; JNum b1].
Proof.
  unfold Unpack, fmt_BB. simpl. by rewrite !Z.add_0_r.
Qed.

Lemma Unpack_lt_H lo hi : Unpack fmt_lt_H [lo; hi] = Some [JNum (lo + 256 * hi)].
Proof.
  unfold Unpack, fmt_lt_H. simpl. by rewrite Z.add_0_r.
Qed.

End FixedFormats.

(** *** [decode] *)

Section DecodeFacts.
Context `{OC : OpaqueCodec}.
Variable G : jsmodule.

Lemma UnpackItems_None be its a :
  UnpackItems be its a = None <-> (length a < CalcLength its)%nat.
Proof.
  revert a. induction its as [|it rest IH]; intros a; simpl.
  - unfold CalcLength. simpl. split; [discriminate | lia].
  - unfold CalcLength in *. simpl.
    destruct (decide (length a < item_count it * lenLut it.2)%nat) as [Hlt|Hge].
    + split; [lia | done].
    + specialize (IH (drop (item_count it * lenLut it.2) a)).
      rewrite length_drop in IH.
      destruct (UnpackItems be rest _) eqn:E.
      * split; [discriminate|]. intros Hlt.
        assert (Some l = None) as Habs by (apply IH; lia). discriminate.
      * split; [|done]. intros _.
        assert (length a - item_count it * lenLut it.2
                < sum_list (map (fun it => item_count it * lenLut it.2) rest))%nat
          by (by apply IH).
        lia.
Qed.

Lemma decode_short msgbuf :
  len msgbuf < 6 -> decode G msgbuf = inl HeaderUnpackError.
Proof.
  intros Hlen. unfold decode.
  assert (Unpack fmt_cBBBBB (slice msgbuf 0 6) = None) as ->; [|done].
  apply UnpackItems_None. rewrite slice_0 by lia.
  rewrite length_take. unfold len in Hlen.
  change (CalcLength (items fmt_cBBBBB)) with 6%nat. lia.
Qed.

Lemma trailer_octets (a : list Z) :
  (2 <= length a)%nat ->
  slice_from a (len a - 2)
  = [Spec.octet a (length a - 2); Spec.octet a (length a - 1)].
Proof.
  intros Hlen. rewrite slice_from_nonneg by (unfold len; lia).
  replace (Z.to_nat (len a - 2)) with (length a - 2)%nat by (unfold len; lia).
  unfold Spec.octet.
  assert (length (drop (length a - 2) a) = 2%nat) as Hd
    by (rewrite length_drop; lia).
  rewrite <- (Nat.add_0_r (length a - 2)) at 2.
  replace (length a - 1)%nat with (length a - 2 + 1)%nat by lia.
  rewrite <- !lookup_drop.
  destruct (drop (length a - 2) a) as [|x [|y [|z t]]]; simpl in Hd; try lia.
  reflexivity.
Qed.

(** [decode] on a buffer of at least six octets, with the jspack calls on
    the fixed formats and the slices evaluated. *)
Lemma decode_long b0 b1 b2 b3 b4 b5 rest :
  let msgbuf := b0 :: b1 :: b2 :: b3 :: b4 :: b5 :: rest in
  decode G msgbuf =
    if negb (b0 =? 254) then inl (InvalidPrefix b0)
    else if negb (b1 =? len msgbuf - 8)
    then inl (InvalidLength (len msgbuf - 8) b1 b5)
    else
      match mavlink_map G !! b5 with
      | None => inl (UnknownMessageID b5)
      | Some decoder =>
          let received := Spec.transmitted_crc msgbuf in
          let calculated := Spec.recomputed_crc (c_crc_extra decoder) msgbuf in
          if negb (received =? calculated)
          then inl (InvalidCrc b5 received calculated)
          else
            match Unpack (c_format decoder) rest with
            | None => inl (PayloadUnpackError b5 (len (slice msgbuf 6 (-2))))
            | Some t =>
                inr {| m_class := decoder;
                       m_fields := set_from 0 (c_fieldnames decoder)
                                     (reorder (c_order_map decoder) t)
                                     (set_from 0 (c_fieldnames decoder) [] ∅);
                       m_payload := Some rest;
                       m_header := Some {| h_msgId := b5; h_mlen := b1;
                                           h_seq := b2; h_srcSystem := b3;
                                           h_srcComponent := b4 |};
                       m_msgbuf := Some msgbuf;
                       m_crc := Some [JNum received] |}
            end
      end.
Proof.
  intros msgbuf. unfold decode. rewrite slice_0 by lia.
  change (take (Z.to_nat 6) msgbuf) with [b0; b1; b2; b3; b4; b5].
  rewrite Unpack_cBBBBB.
  destruct (negb (b0 =? 254)); [done|].
  destruct (negb (b1 =? len msgbuf - 8)); [done|].
  destruct (mavlink_map G !! b5) as [decoder|]; [|done].
  rewrite trailer_octets by (simpl; lia).
  rewrite Unpack_lt_H.
  fold (Spec.transmitted_crc msgbuf).
  fold (Spec.recomputed_crc (c_crc_extra decoder) msgbuf).
  cbv zeta.
  destruct (negb (Spec.transmitted_crc msgbuf =? _)); [done|].
  assert (slice msgbuf 6 (len msgbuf) = rest) as ->.
  { rewrite slice_nonneg by (unfold len; lia).
    change (drop (Z.to_nat 6) msgbuf) with rest.
    apply take_ge. unfold len. simpl. lia. }
  assert (slice_from msgbuf 6 = rest) as ->.
  { by rewrite slice_from_nonneg by lia. }
  destruct (Unpack (c_format decoder) rest); reflexivity.
Qed.

(** The length error of [decode] means that octet 1 is not the buffer
    length less 8. *)
Lemma decode_InvalidLength msgbuf g e i :
  decode G msgbuf = inl (InvalidLength g e i) ->
  Spec.octet msgbuf 1 <> len msgbuf - 8.
Proof.
  destruct (Z.ltb_spec (len msgbuf) 6) as [Hshort|Hlong].
  - by rewrite decode_short.
  - destruct msgbuf as [|b0 [|b1 [|b2 [|b3 [|b4 [|b5 rest]]]]]];
      try (unfold len in Hlong; simpl in Hlong; lia).
    rewrite decode_long. cbv zeta.
    destruct (negb (b0 =? 254)); [done|].
    destruct (Z.eqb_spec b1 (len (b0 :: b1 :: b2 :: b3 :: b4 :: b5 :: rest) - 8));
      simpl; [|done].
    destruct (mavlink_map G !! b5); [|done].
    destruct (negb (Spec.transmitted_crc _ =? _)); [done|].
    by destruct (Unpack _ rest).
Qed.

(** Every message that [decode] returns carries as [payload] all octets
    behind the header: two more than the length octet announces. *)
Lemma decode_payload msgbuf m :
  decode G msgbuf = inr m ->
  m_payload m = Some (drop 6 msgbuf)
  /\ exists h, m_header m = Some h /\ len (drop 6 msgbuf) = h_mlen h + 2.
Proof.
  destruct (Z.ltb_spec (len msgbuf) 6) as [Hshort|Hlong].
  - by rewrite decode_short.
  - destruct msgbuf as [|b0 [|b1 [|b2 [|b3 [|b4 [|b5 rest]]]]]];
      try (unfold len in Hlong; simpl in Hlong; lia).
    rewrite decode_long. cbv zeta.
    destruct (negb (b0 =? 254)); [done|].
    destruct (Z.eqb_spec b1 (len (b0 :: b1 :: b2 :: b3 :: b4 :: b5 :: rest) - 8))
      as [Hb1|]; simpl; [|done].
    destruct (mavlink_map G !! b5); [|done].
    destruct (negb (Spec.transmitted_crc _ =? _)); [done|].
    destruct (Unpack _ rest); [|done].
    intros [= <-]. cbn [m_payload m_header h_mlen].
    change (drop 6 (b0 :: b1 :: b2 :: b3 :: b4 :: b5 :: rest)) with rest.
    split; [done|]. eexists. split; [done|]. cbn [h_mlen].
    assert (len (b0 :: b1 :: b2 :: b3 :: b4 :: b5 :: rest) = len rest + 6) as Hl
      by (unfold len; cbn [length]; lia).
    change (drop 0 rest) with rest. lia.
Qed.


End DecodeFacts.

(** *** The stream parser *)

Section StreamFacts.
Context `{OC : OpaqueCodec}.
Variable G : jsmodule.
Import Stream.

Lemma slice_from_1_cons (b0 : Z) r : slice_from (b0 :: r) 1 = r.
Proof. by rewrite slice_from_nonneg by lia. Qed.

Lemma slice_0_1_cons (b0 : Z) r : slice (b0 :: r) 0 1 = [b0].
Proof. rewrite slice_0 by lia. simpl. by rewrite take_0. Qed.

(** One [parseChar()] call without data, in terms of [next]. *)
Lemma parseChar_next this :
  let '(this', r) := parseChar G this None in
  r = fst <$> next G (buf this)
  /\ buf this' = match next G (buf this) with
                 | Some (_, b') => b'
                 | None => buf this
                 end
  /\ total_receive_errors this'
     = total_receive_errors this
       + match r with Some (bad_data _ _) => 1 | _ => 0 end.
Proof.
  unfold parseChar, parseChar_try, pushBuffer, parsePrefix.
  destruct this as [sq b bie sy sc el pm tps tbs tpr tbr tre]. simpl.
  destruct b as [|b0 r]; simpl.
  - unfold parseLength, parsePayload. simpl.
    destruct (Z.leb_spec 8 el); simpl; [|split_and!; [done|done|lia]].
    destruct (Z.leb_spec el (len (@nil Z))); simpl.
    + unfold len in *. simpl in *. lia.
    + split_and!; [done|done|lia].
  - destruct (negb (b0 =? 254)) eqn:Hb0; simpl.
    + rewrite slice_from_1_cons, slice_0_1_cons. split_and!; [done|done|lia].
    + unfold parseLength. simpl.
      destruct r as [|l r]; simpl.
      * replace (2 <=? len [b0]) with false by done.
        unfold parsePayload. simpl.
        destruct (Z.leb_spec 8 el); simpl; [|split_and!; [done|done|lia]].
        destruct (Z.leb_spec el (len [b0])); simpl.
        -- unfold len in *. simpl in *. lia.
        -- split_and!; [done|done|lia].
      * assert ((2 <=? len (b0 :: l :: r)) = true) as ->
          by (apply Z.leb_le; unfold len; simpl; lia).
        rewrite slice_0 by lia.
        change (take (Z.to_nat 2) (b0 :: l :: r)) with [b0; l].
        rewrite Unpack_BB. unfold parsePayload. simpl.
        destruct ((8 <=? l + 8) && (l + 8 <=? len (b0 :: l :: r))); simpl.
        -- destruct (decode G (slice (b0 :: l :: r) 0 (l + 8))); simpl;
             split_and!; [done|done|lia|done|done|lia].
        -- split_and!; [done|done|lia].
Qed.

(** A call with data is a call without data on the extended buffer. *)
Lemma parseChar_push this s :
  parseChar G this (Some s) = parseChar G (pushBuffer this (Some s)) None.
Proof. reflexivity. Qed.

Lemma next_shrinks b m b' :
  next G b = Some (m, b') -> (length b' < length b)%nat.
Proof.
  unfold next. destruct b as [|b0 r]; [done|].
  destruct (negb (b0 =? 254)).
  - intros [= _ <-]. simpl. lia.
  - destruct r as [|l r]; [done|].
    destruct (Z.leb_spec 8 (l + 8)); simpl; [|done].
    destruct (Z.leb_spec (l + 8) (len (b0 :: l :: r))); simpl; [|done].
    intros [= _ <-]. rewrite slice_from_nonneg by lia.
    rewrite length_drop. unfold len in *. simpl in *. lia.
Qed.

Lemma drain_fuel f f' b :
  (length b < f)%nat -> (length b < f')%nat -> drain G f b = drain G f' b.
Proof.
  revert f' b. induction f as [|f IH]; intros f' b Hf Hf'; [lia|].
  destruct f' as [|f']; [lia|]. simpl.
  destruct (next G b) as [[m b']|] eqn:E; [|done].
  apply next_shrinks in E. rewrite (IH f' b') by lia. done.
Qed.

Lemma drain_all_step b m b' :
  next G b = Some (m, b') ->
  drain_all G b = (m :: (drain_all G b').1, (drain_all G b').2).
Proof.
  intros E. unfold drain_all.
  pose proof (next_shrinks _ _ _ E).
  remember (drain G (S (length b')) b') as d eqn:Hd.
  cbn [drain]. rewrite E.
  rewrite (drain_fuel (length b) (S (length b')) b') by lia.
  rewrite <- Hd. by destruct d.
Qed.

Lemma drain_all_stop b : next G b = None -> drain_all G b = ([], b).
Proof. intros E. unfold drain_all. simpl. by rewrite E. Qed.

(** The loop of [parseBuffer], in terms of [drain]. *)
Lemma parseBuffer_loop_drain fuel this :
  let '(this', ms) := parseBuffer_loop G fuel this in
  (ms, buf this') = drain G fuel (buf this)
  /\ total_receive_errors this' = total_receive_errors this + bad_count ms.
Proof.
  revert this. induction fuel as [|fuel IH]; intros this; simpl.
  - split; [done|lia].
  - pose proof (parseChar_next this) as Hn.
    destruct (parseChar G this None) as [this1 [m|]].
    + destruct Hn as (Hr & Hb & He).
      destruct (next G (buf this)) as [[m' b']|]; [|done].
      simpl in Hr. injection Hr as ->.
      specialize (IH this1).
      destruct (parseBuffer_loop G fuel this1) as [this2 ms].
      destruct IH as [IHd IHe]. rewrite Hb in IHd. rewrite <- IHd.
      split; [done|]. rewrite IHe, He. simpl. destruct m'; simpl; lia.
    + destruct Hn as (Hr & Hb & He).
      destruct (next G (buf this)) as [[m' b']|]; [done|].
      rewrite Hb. split; [done|]. simpl. lia.
Qed.

(** [parseBuffer], in terms of [drain_all]. *)
Lemma parseBuffer_drain this s :
  let '(this', r) := parseBuffer G this s in
  (results r, buf this') = drain_all G (buf this ++ s)
  /\ total_receive_errors this'
     = total_receive_errors this + bad_count (results r).
Proof.
  unfold parseBuffer. rewrite parseChar_push.
  pose proof (parseChar_next (pushBuffer this (Some s))) as Hn.
  assert (buf (pushBuffer this (Some s)) = buf this ++ s) as Hbuf by done.
  assert (total_receive_errors (pushBuffer this (Some s))
          = total_receive_errors this) as Herr by done.
  rewrite Hbuf, Herr in Hn.
  destruct (parseChar G (pushBuffer this (Some s)) None) as [this1 [m|]].
  - destruct Hn as (Hr & Hb & He).
    destruct (next G (buf this ++ s)) as [[m' b']|] eqn:E; [|done].
    simpl in Hr. injection Hr as ->.
    pose proof (parseBuffer_loop_drain (S (length (buf this1))) this1) as Hl.
    destruct (parseBuffer_loop G (S (length (buf this1))) this1) as [this2 ms].
    destruct Hl as [Hd Hle]. rewrite Hb in Hd.
    rewrite (drain_all_step _ _ _ E). unfold drain_all. rewrite <- Hd.
    split; [done|]. rewrite Hle, He. simpl. destruct m'; simpl; lia.
  - destruct Hn as (Hr & Hb & He).
    destruct (next G (buf this ++ s)) as [[m' b']|] eqn:E; [done|].
    rewrite (drain_all_stop _ E), Hb. split; [done|]. simpl. lia.
Qed.

(** The bound on the loop of [parseBuffer] is never what ends it: any two
    bounds above the number of buffered octets give the same run. *)
Lemma parseBuffer_loop_fuel f f' this :
  (length (buf this) < f)%nat -> (length (buf this) < f')%nat ->
  parseBuffer_loop G f this = parseBuffer_loop G f' this.
Proof.
  revert f' this. induction f as [|f IH]; intros f' this Hf Hf'; [lia|].
  destruct f' as [|f']; [lia|]. simpl.
  pose proof (parseChar_next this) as Hn.
  destruct (parseChar G this None) as [this1 [m|]]; [|done].
  destruct Hn as (Hr & Hb & _).
  destruct (next G (buf this)) as [[m' b']|] eqn:E; [|done].
  apply next_shrinks in E. rewrite (IH f' this1) by (rewrite Hb; lia). done.
Qed.

(** When the loop of [parseBuffer] stops, [next] has nothing more to yield. *)
Lemma drain_quiescent fuel b :
  (length b < fuel)%nat -> next G (drain G fuel b).2 = None.
Proof.
  revert b. induction fuel as [|fuel IH]; intros b Hb; [lia|]. simpl.
  destruct (next G b) as [[m b']|] eqn:E; [|done].
  pose proof (next_shrinks _ _ _ E).
  specialize (IH b' ltac:(lia)). by destruct (drain G fuel b').
Qed.

(** [parseBuffer] returns because [parseChar] returned [null]: one more call
    without data returns [null] again. *)
Lemma parseBuffer_ends_on_null this s :
  (parseChar G (parseBuffer G this s).1 None).2 = None.
Proof.
  pose proof (parseBuffer_drain this s) as Hd.
  destruct (parseBuffer G this s) as [this' r]. cbn [fst].
  destruct Hd as [Hd _].
  pose proof (drain_quiescent (S (length (buf this ++ s))) (buf this ++ s)
                ltac:(lia)) as Hq.
  fold (drain_all G (buf this ++ s)) in Hq. rewrite <- Hd in Hq. cbn [snd] in Hq.
  pose proof (parseChar_next this') as Hn.
  destruct (parseChar G this' None) as [this'' r']. cbn [snd].
  destruct Hn as (-> & _). by rewrite Hq.
Qed.

(** Octets appended behind a buffer do not change what [next] makes of it. *)
Lemma next_app b c m b' :
  next G b = Some (m, b') -> next G (b ++ c) = Some (m, b' ++ c).
Proof.
  unfold next. destruct b as [|b0 r]; [done|]. simpl.
  destruct (negb (b0 =? 254)).
  - by intros [= <- <-].
  - destruct r as [|l r]; [done|]. simpl.
    destruct (Z.leb_spec 8 (l + 8)); simpl; [|done].
    destruct (Z.leb_spec (l + 8) (len (b0 :: l :: r))) as [Hle|]; simpl; [|done].
    assert ((l + 8 <=? len (b0 :: l :: r ++ c)) = true) as ->.
    { apply Z.leb_le. change (b0 :: l :: r ++ c) with ((b0 :: l :: r) ++ c).
      rewrite len_app. pose proof (len_nonneg c). lia. }
    change (b0 :: l :: r ++ c) with ((b0 :: l :: r) ++ c).
    rewrite !slice_0, !slice_from_nonneg by lia.
    rewrite take_app_le by (unfold len in Hle; lia).
    rewrite drop_app_le by (unfold len in Hle; lia).
    by intros [= <- <-].
Qed.

(** Draining a buffer extended by [c] is draining the buffer and then
    draining what is left extended by [c]. *)
Lemma drain_all_app b c :
  drain_all G (b ++ c)
  = ((drain_all G b).1 ++ (drain_all G ((drain_all G b).2 ++ c)).1,
     (drain_all G ((drain_all G b).2 ++ c)).2).
Proof.
  remember (length b) as n eqn:Hn. revert b Hn.
  induction (lt_wf n) as [n _ IH]. intros b Hn.
  destruct (next G b) as [[m b']|] eqn:E.
  - rewrite (drain_all_step _ _ _ (next_app _ c _ _ E)).
    rewrite (drain_all_step _ _ _ E). simpl.
    apply next_shrinks in E.
    rewrite (IH (length b') ltac:(lia) b' eq_refl). done.
  - rewrite (drain_all_stop _ E). simpl.
    by destruct (drain_all G (b ++ c)).
Qed.

Lemma parseBuffer_chunks_drain this s rest :
  let '(this', ms) := parseBuffer_chunks G this (s :: rest) in
  (ms, buf this') = drain_all G (buf this ++ concat (s :: rest)).
Proof.
  revert this s. induction rest as [|s' rest IH]; intros this s.
  - cbn [parseBuffer_chunks concat].
    pose proof (parseBuffer_drain this s) as Hd.
    destruct (parseBuffer G this s) as [this1 r].
    destruct Hd as [Hd _]. by rewrite !app_nil_r.
  - cbn [parseBuffer_chunks]. cbn [parseBuffer_chunks] in IH.
    pose proof (parseBuffer_drain this s) as Hd.
    destruct (parseBuffer G this s) as [this1 r]. destruct Hd as [Hd _].
    specialize (IH this1 s').
    destruct (parseBuffer G this1 s') as [this2 r'].
    destruct (parseBuffer_chunks G this2 rest) as [this3 rs].
    change (concat (s :: s' :: rest)) with (s ++ concat (s' :: rest)).
    rewrite (app_assoc (buf this)), drain_all_app, <- Hd. cbn [fst snd].
    by rewrite <- IH.
Qed.

(** C4: pushing the chunks [s :: rest] one [parseBuffer] call at a time on a
    connection yields, concatenated in order, the results of the single call
    [parseBuffer] on the concatenation of the chunks, and leaves the same
    octets buffered.  This holds for every octet sequence and every way of
    cutting it, so in particular for one that parses as a sequence of
    frames; the results compared are the decoded messages together with the
    [bad_data] placeholders. *)
Theorem parseBuffer_fragmentation (this : MAVLink) (s : list Z) (rest : list (list Z)) :
  (parseBuffer_chunks G this (s :: rest)).2
  = results (parseBuffer G this (concat (s :: rest))).2
  /\ buf (parseBuffer_chunks G this (s :: rest)).1
     = buf (parseBuffer G this (concat (s :: rest))).1.
Proof.
  pose proof (parseBuffer_chunks_drain this s rest) as Hc.
  pose proof (parseBuffer_drain this (concat (s :: rest))) as Hw.
  destruct (parseBuffer_chunks G this (s :: rest)) as [this1 ms].
  destruct (parseBuffer G this (concat (s :: rest))) as [this2 r].
  destruct Hw as [Hw _]. cbn [fst snd].
  rewrite <- Hw in Hc. by injection Hc as -> ->.
Qed.

(** Octets other than 254 are dropped one at a time. *)
Lemma drain_all_no_marker (s : list Z) :
  Forall (fun b => b <> 254) s ->
  drain_all G s = (map (fun b => bad_data [b] (BadPrefix b)) s, []).
Proof.
  induction 1 as [|b r Hb _ IH].
  - by apply drain_all_stop.
  - rewrite (drain_all_step (b :: r) (bad_data [b] (BadPrefix b)) r).
    + by rewrite IH.
    + unfold next. by rewrite (proj2 (Z.eqb_neq b 254) Hb).
Qed.

Lemma bad_count_prefix_errors (s : list Z) :
  bad_count (map (fun b => bad_data [b] (BadPrefix b)) s) = len s.
Proof.
  induction s as [|b r IH]; [done|].
  simpl. rewrite IH. unfold len. simpl. lia.
Qed.

(** Resynchronisation on the octet that [parsePrefix] tests for, the literal
    254: on a connection whose buffer is empty, [parseBuffer] called with
    [N] octets none of which is 254 yields exactly one [bad_data] per octet,
    in order, each carrying that single octet, leaves the buffer empty, and
    adds [N] to [total_receive_errors]. *)
Lemma parseBuffer_resync (this : MAVLink) (s : list Z) :
  buf this = [] ->
  Forall (fun b => b <> 254) s ->
  results (parseBuffer G this s).2 = map (fun b => bad_data [b] (BadPrefix b)) s
  /\ length (results (parseBuffer G this s).2) = length s
  /\ buf (parseBuffer G this s).1 = []
  /\ total_receive_errors (parseBuffer G this s).1
     = total_receive_errors this + len s.
Proof.
  intros Hbuf Hs. pose proof (parseBuffer_drain this s) as Hd.
  destruct (parseBuffer G this s) as [this' r]. cbn [fst snd].
  destruct Hd as [Hd He]. rewrite Hbuf in Hd. simpl in Hd.
  rewrite (drain_all_no_marker s Hs) in Hd. injection Hd as Hr Hb.
  rewrite He, Hr, length_map, bad_count_prefix_errors. done.
Qed.

(** What [next] extracts is never a [bad_data] with the length error. *)
Lemma next_no_length_error b m b' :
  next G b = Some (m, b') -> is_length_error m = false.
Proof.
  unfold next. destruct b as [|b0 r]; [done|].
  destruct (negb (b0 =? 254)); [by intros [= <- _]|].
  destruct r as [|l r]; [done|].
  destruct (Z.leb_spec 8 (l + 8)); simpl; [|done].
  destruct (Z.leb_spec (l + 8) (len (b0 :: l :: r))) as [Hle|]; simpl; [|done].
  intros [= <- _].
  destruct (decode G (slice (b0 :: l :: r) 0 (l + 8))) as [e|m'] eqn:E; [|done].
  destruct e; try done.
  apply decode_InvalidLength in E. exfalso. apply E.
  rewrite slice_0 by lia. unfold len. rewrite length_take.
  unfold len in Hle. simpl in Hle.
  destruct (Z.to_nat (l + 8)) as [|[|k]] eqn:Hk; [lia|lia|].
  simpl. unfold Spec.octet. simpl. lia.
Qed.

Lemma drain_no_length_error fuel b :
  forallb (fun m => negb (is_length_error m)) (drain G fuel b).1 = true.
Proof.
  revert b. induction fuel as [|fuel IH]; intros b; [done|]. simpl.
  destruct (next G b) as [[m b']|] eqn:E; [|done].
  specialize (IH b'). destruct (drain G fuel b') as [ms b''].
  simpl in *. by rewrite (next_no_length_error _ _ _ E), IH.
Qed.

(** C9: no result of [parseBuffer] is a [bad_data] whose reason is the length
    error of [decode]: the candidate frame that [parsePayload] cuts has the
    length that its own length octet announces.  Called directly, [decode]
    does raise it, for instance on the six octets FE 09 00 01 01 00. *)
Theorem parseBuffer_no_length_error (this : MAVLink) (s : list Z) :
  forallb (fun m => negb (is_length_error m)) (results (parseBuffer G this s).2)
  = true
  /\ decode G [254; 9; 0; 1; 1; 0] = inl (InvalidLength (-2) 9 0).
Proof.
  split.
  - pose proof (parseBuffer_drain this s) as Hd.
    destruct (parseBuffer G this s) as [this' r]. cbn [fst snd].
    destruct Hd as [Hd _].
    pose proof (drain_no_length_error (S (length (buf this ++ s))) (buf this ++ s))
      as Hn.
    fold (drain_all G (buf this ++ s)) in Hn. by rewrite <- Hd in Hn.
  - by rewrite decode_long.
Qed.

End StreamFacts.

(** *** Checksum *)

Section CrcFacts.

Lemma fold_x25_step_crc16 (b : list Z) (s : Z) : fold_left x25_step b s = crc16 b s.
Proof. revert s. induction b as [|e r IH]; intros s; [done|]. simpl. apply IH. Qed.

Lemma x25_step_range crc e : 0 <= x25_step crc e < 65536.
Proof.
  unfold x25_step. change 0xffff with (Z.ones 16).
  rewrite Z.land_ones by lia. apply Z.mod_pos_bound. lia.
Qed.

Lemma x25Crc_extra_range e s : 0 <= x25Crc [e] s < 65536.
Proof. unfold x25Crc. simpl. apply x25_step_range. Qed.

(** C10: passing the seed 0 to [x25Crc] gives what omitting the seed gives,
    the checksum started from 0xFFFF, for every octet sequence, so the
    chain is never started from 0 (on the empty sequence the function
    returns 0xFFFF where a chain started from 0 would return 0); every other
    seed is the start value of the computation. *)
Theorem x25Crc_seed (b : list Z) :
  x25Crc b (Some 0) = x25Crc b None
  /\ x25Crc b (Some 0) = crc16 b 0xFFFF
  /\ (x25Crc [] (Some 0) =? crc16 [] 0) = false
  /\ forall s, s <> 0 -> x25Crc b (Some s) = crc16 b s.
Proof.
  split_and!.
  - reflexivity.
  - apply fold_x25_step_crc16.
  - reflexivity.
  - intros s Hs. unfold x25Crc, crc_or_default.
    rewrite (proj2 (Z.eqb_neq s 0) Hs). apply fold_x25_step_crc16.
Qed.

Lemma x25Crc_seed_witness :
  x25Crc [1; 2; 3] (Some 0x1D0F) = crc16 [1; 2; 3] 0x1D0F.
Proof.
  destruct (x25Crc_seed [1; 2; 3]) as (_ & _ & _ & H).
  apply H. lia.
Defined.

End CrcFacts.

(** *** The HEARTBEAT scenario *)

Section Scenario.
Import Dialect.

(** The module definitions above are what [generate] emits for the dialect. *)
Lemma generate_dialect marker : generate [dialect_xml marker] = Some (dialect marker).
Proof. reflexivity. Qed.

(** C2: with HEARTBEAT registered under id 0 (payload width 9, [crc_extra]
    50) and marker 0xFE, packing the all-zero HEARTBEAT on a connection with
    [srcSystem = 1], [srcComponent = 1], [seq = 0] gives the 17 octets
    FE 09 00 01 01 00, nine times 00, and the checksum low octet first, where
    the checksum is [crc16] over 09 00 01 01 00 and the nine zero octets,
    continued over the octet 50; decoding this frame gives back the field
    values and reports sequence 0, system 1, component 1. *)
Theorem heartbeat_scenario :
  let crc := crc16 [50] (crc16 ([0x09; 0x00; 0x01; 0x01; 0x00] ++ replicate 9 0) 0xFFFF) in
  let frame := [0xFE; 0x09; 0x00; 0x01; 0x01; 0x00] ++ replicate 9 0
               ++ [crc mod 256; crc / 256] in
  mavlink_map v10 !! 0 = Some HEARTBEAT_class
  /\ CalcLength (items (c_format HEARTBEAT_class)) = 9%nat
  /\ c_crc_extra HEARTBEAT_class = 50
  /\ Pack (c_format HEARTBEAT_class)
       (map (field_value heartbeat0) (c_ordered_fieldnames HEARTBEAT_class))
     = Some (replicate 9 0)
  /\ snd <$> pack v10 heartbeat0 mav11 = Some frame
  /\ snd <$> message_pack v10 heartbeat0 mav11 50 (replicate 9 0) = Some frame
  /\ length frame = 17%nat
  /\ exists m,
       decode v10 frame = inr m
       /\ map (fun f => m_fields m !! f) (c_fieldnames HEARTBEAT_class)
          = map (fun f => m_fields heartbeat0 !! f) (c_fieldnames HEARTBEAT_class)
       /\ m_header m = Some {| h_msgId := 0; h_mlen := 9; h_seq := 0;
                               h_srcSystem := 1; h_srcComponent := 1 |}.
Proof.
  cbv zeta. split_and!; try (vm_compute; reflexivity).
  eexists. split; [vm_compute; reflexivity|].
  split; vm_compute; reflexivity.
Qed.

(** C7, at the HEARTBEAT frame: the [payload] that [decode] attaches is
    [msgbuf.slice(6)], the nine payload octets followed by the two checksum
    octets 43 48, where [pack] attaches the nine payload octets alone. *)
Theorem heartbeat_decode_payload :
  (exists m, decode v10 heartbeat_frame = inr m
             /\ m_payload m = Some (replicate 9 0 ++ [0x43; 0x48]))
  /\ (exists m, fst <$> pack v10 heartbeat0 mav11 = Some m
                /\ m_payload m = Some (replicate 9 0))
  /\ snd <$> pack v10 heartbeat0 mav11 = Some heartbeat_frame.
Proof.
  split_and!.
  - eexists. split; vm_compute; reflexivity.
  - eexists. split; vm_compute; reflexivity.
  - vm_compute; reflexivity.
Qed.

(** C6, at the dialect with marker 0x55: a frame packed by the module starts
    with 0x55, the marker of the dialect, while [parsePrefix] and [decode] of
    the same module compare the first octet with 254: [decode] rejects the
    frame with the prefix error and [parseBuffer] turns its 17 octets into 17
    prefix errors.  A connection's [protocol_marker] property is 254 too. *)
Theorem marker_v09_mismatch :
  PROTOCOL_MARKER v09 = 85
  /\ (exists frame,
        snd <$> pack v09 heartbeat0 mav11 = Some frame
        /\ frame !! 0%nat = Some 85
        /\ decode v09 frame = inl (InvalidPrefix 85)
        /\ (parsePrefix (with_buf frame mav11)).2 = Some (BadPrefix 85)
        /\ results (parseBuffer v09 mav11 frame).2
           = map (fun b => bad_data [b] (BadPrefix b)) frame)
  /\ protocol_marker mav11 = 254.
Proof.
  split_and!; [reflexivity| |reflexivity].
  exists (85 :: tail heartbeat_frame).
  split_and!; vm_compute; reflexivity.
Qed.

(** C3, at three frames on which [decode] and the validation order of the
    spec part.  (1) The length octet announces seven payload octets, the
    format of HEARTBEAT takes nine: the payload does not unpack against the
    format, yet [decode] returns a message, having unpacked the seven
    payload octets together with the two checksum octets, which it reports
    as [system_status] and [mavlink_version].  (2) The checksum over header
    and payload is 0: the frame carries the checksum continued over
    [crc_extra] from that running value and passes every validation of the
    spec, yet [decode] refuses it, having restarted the checksum from
    0xffff.  (3) In the dialect with marker 0x55 a frame that starts with
    the marker and passes every validation of the spec is refused with the
    prefix error. *)
Theorem decode_validation_divergence :
  (Spec.first_failure v10 short_payload_frame = Some Spec.PayloadUnpackFails
   /\ Spec.octet short_payload_frame 1 = 7
   /\ CalcLength (items (c_format HEARTBEAT_class)) = 9%nat
   /\ exists m, decode v10 short_payload_frame = inr m
                /\ m_class m = HEARTBEAT_class
                /\ m_fields m !! "system_status" = Some (JNum 0x70)
                /\ m_fields m !! "mavlink_version" = Some (JNum 0x43))
  /\ (Spec.first_failure v10 zero_crc_frame = None
      /\ x25Crc (slice zero_crc_frame 1 (len zero_crc_frame - 2)) None = 0
      /\ Spec.transmitted_crc zero_crc_frame = crc16 [50] 0
      /\ decode v10 zero_crc_frame
         = inl (InvalidCrc 0 (crc16 [50] 0) (crc16 [50] 0xFFFF)))
  /\ (Spec.first_failure v09 (85 :: tail heartbeat_frame) = None
      /\ decode v09 (85 :: tail heartbeat_frame) = inl (InvalidPrefix 85)).
Proof.
  split_and!; try (vm_compute; reflexivity).
  eexists. split; [vm_compute; reflexivity|].
  split_and!; vm_compute; reflexivity.
Qed.

(** C5, at the dialect with marker 0x55: the three octets FE 09 00, none of
    which is the marker of the dialect, pushed on a connection with an empty
    buffer yield no [bad_data] at all; they stay in the buffer and the error
    counter is as before.  The marker octet itself, pushed alone, is dropped
    with a prefix error. *)
Theorem resync_marker_v09 :
  PROTOCOL_MARKER v09 = 85
  /\ buf mav11 = []
  /\ Forall (fun b => b <> PROTOCOL_MARKER v09) [254; 9; 0]
  /\ results (parseBuffer v09 mav11 [254; 9; 0]).2 = []
  /\ buf (parseBuffer v09 mav11 [254; 9; 0]).1 = [254; 9; 0]
  /\ total_receive_errors (parseBuffer v09 mav11 [254; 9; 0]).1
     = total_receive_errors mav11
  /\ results (parseBuffer v09 mav11 [85]).2 = [bad_data [85] (BadPrefix 85)].
Proof.
  split_and!; try (vm_compute; reflexivity).
  repeat constructor; vm_compute; discriminate.
Qed.

End Scenario.

(** *** Packing *)

Section PackFacts.
Context `{OC : OpaqueCodec}.
Variable G : jsmodule.

Lemma is_octet_range n : is_octet n = true <-> 0 <= n < 256.
Proof. unfold is_octet. rewrite andb_true_iff, Z.leb_le, Z.ltb_lt. done. Qed.

Lemma en_elem_FB be n : is_octet n = true -> en_elem FB be (JNum n) = Some [n].
Proof.
  intros Hn%is_octet_range. unfold en_elem. simpl int_code. cbv iota beta.
  change (int_min false 1) with 0. change (int_max false 1) with 255.
  rewrite (proj2 (Z.leb_le 0 n)), (proj2 (Z.leb_le n 255)) by lia.
  simpl. rewrite Z.mod_small by lia. by destruct be.
Qed.

Lemma Pack_lt_H crc :
  0 <= crc < 65536 -> Pack fmt_lt_H [JNum crc] = Some [crc mod 256; crc / 256].
Proof.
  intros Hc. unfold Pack, fmt_lt_H. cbn -[en_elem].
  unfold en_elem. simpl int_code. cbv iota beta.
  change (int_min false 2) with 0. change (int_max false 2) with 65535.
  rewrite (proj2 (Z.leb_le 0 crc)), (proj2 (Z.leb_le crc 65535)) by lia.
  cbn [andb wire_order le_bytes app].
  rewrite (Z.mod_small (crc / 256)); [done|].
  split; [apply Z.div_pos; lia | apply Z.div_lt_upper_bound; lia].
Qed.

Lemma header_pack_octets h :
  is_octet (PROTOCOL_MARKER G) = true -> is_octet (h_mlen h) = true ->
  is_octet (h_seq h) = true -> is_octet (h_srcSystem h) = true ->
  is_octet (h_srcComponent h) = true -> is_octet (h_msgId h) = true ->
  header_pack G h
  = Some [PROTOCOL_MARKER G; h_mlen h; h_seq h; h_srcSystem h;
          h_srcComponent h; h_msgId h].
Proof.
  intros H0 H1 H2 H3 H4 H5. unfold header_pack, Pack, fmt_BBBBBB.
  cbn -[en_elem].
  by rewrite !en_elem_FB.
Qed.

(** The frame that [message_pack] builds from a payload of at most 255
    octets when marker, id and sender context are octets. *)
Lemma message_pack_frame this mav crc_extra payload :
  is_octet (PROTOCOL_MARKER G) = true -> is_octet (c_id (m_class this)) = true ->
  is_octet (seq mav) = true -> is_octet (srcSystem mav) = true ->
  is_octet (srcComponent mav) = true -> len payload < 256 ->
  let hdr := {| h_msgId := c_id (m_class this); h_mlen := len payload;
                h_seq := seq mav; h_srcSystem := srcSystem mav;
                h_srcComponent := srcComponent mav |} in
  let crc := x25Crc [crc_extra]
               (Some (x25Crc ([len payload; seq mav; srcSystem mav;
                               srcComponent mav; c_id (m_class this)] ++ payload)
                        None)) in
  let frame := [PROTOCOL_MARKER G; len payload; seq mav; srcSystem mav;
                srcComponent mav; c_id (m_class this)]
               ++ payload ++ [crc mod 256; crc / 256] in
  message_pack G this mav crc_extra payload
  = Some ({| m_class := m_class this; m_fields := m_fields this;
             m_payload := Some payload; m_header := Some hdr;
             m_msgbuf := Some frame; m_crc := m_crc this |}, frame).
Proof.
  intros Hm Hi Hs Hy Hc Hl. cbv zeta. unfold message_pack.
  rewrite header_pack_octets; cbn [h_mlen h_seq h_srcSystem h_srcComponent h_msgId];
    try done.
  2:{ apply is_octet_range. pose proof (len_nonneg payload). lia. }
  cbn [mbind option_bind app].
  rewrite slice_from_1_cons.
  rewrite Pack_lt_H by apply x25Crc_extra_range.
  cbn [mbind option_bind]. reflexivity.
Qed.

(** In a module whose marker is not 254, the frame that [message_pack]
    builds starts with the module's marker and is refused by [decode] and by
    [parsePrefix] of the same module. *)
Lemma message_pack_marker_refused this mav crc_extra payload (conn : MAVLink) :
  is_octet (PROTOCOL_MARKER G) = true -> is_octet (c_id (m_class this)) = true ->
  is_octet (seq mav) = true -> is_octet (srcSystem mav) = true ->
  is_octet (srcComponent mav) = true -> len payload < 256 ->
  PROTOCOL_MARKER G <> 254 ->
  exists m' frame,
    message_pack G this mav crc_extra payload = Some (m', frame)
    /\ frame !! 0%nat = Some (PROTOCOL_MARKER G)
    /\ decode G frame = inl (InvalidPrefix (PROTOCOL_MARKER G))
    /\ (parsePrefix (with_buf frame conn)).2
       = Some (BadPrefix (PROTOCOL_MARKER G)).
Proof.
  intros Hm Hi Hs Hy Hc Hl Hne. rewrite message_pack_frame by done.
  eexists _, _. split; [reflexivity|]. cbn [app].
  split; [done|]. rewrite decode_long. cbv zeta.
  unfold parsePrefix. cbn [buf with_buf].
  by rewrite (proj2 (Z.eqb_neq _ _) Hne).
Qed.

(** C8, as the code has it: for a message of a class without field names
    of the runtime's own, whose fields jspack packs into at most 255 octets,
    sent on a connection whose sequence counter and source identifiers are
    octets (and with marker and message id octets), [pack] builds a frame
    whose sequence octet is the counter before the call.  On a connection
    with a transport attached as [file], [send] hands exactly this frame to
    [file.write] and returns without a value; afterwards the counter is the
    old value plus one modulo 256, [total_packets_sent] is one more,
    [total_bytes_sent] has grown by the length of the frame, and every other
    property of the connection (buffer, error buffer, source identifiers,
    expected length, marker, the three receive counters) is as before.  On a
    connection without [file] the call throws after packing and leaves the
    connection as it was. *)
Theorem send_updates (this : MAVLink) (mavmsg : message) (payload : list Z) :
  own_names_free (m_class mavmsg) ->
  Pack (c_format (m_class mavmsg))
    (map (field_value mavmsg) (c_ordered_fieldnames (m_class mavmsg)))
  = Some payload ->
  len payload < 256 ->
  is_octet (PROTOCOL_MARKER G) = true ->
  is_octet (c_id (m_class mavmsg)) = true ->
  is_octet (seq this) = true ->
  is_octet (srcSystem this) = true ->
  is_octet (srcComponent this) = true ->
  exists frame mavmsg',
    pack G mavmsg this = Some (mavmsg', frame)
    /\ frame !! 2%nat = Some (seq this)
    /\ len frame = len payload + 8
    /\ match file this with
       | Some written =>
           send G this mavmsg
           = Some ({| seq := (seq this + 1) mod 256;
                      buf := buf this;
                      bufInError := bufInError this;
                      srcSystem := srcSystem this;
                      srcComponent := srcComponent this;
                      expected_length := expected_length this;
                      protocol_marker := protocol_marker this;
                      total_packets_sent := total_packets_sent this + 1;
                      total_bytes_sent := total_bytes_sent this + len frame;
                      total_packets_received := total_packets_received this;
                      total_bytes_received := total_bytes_received this;
                      total_receive_errors := total_receive_errors this;
                      file := Some (written ++ [frame]) |},
                   mavmsg', Returns)
       | None => send G this mavmsg = Some (this, mavmsg', Throws_TypeError)
       end.
Proof.
  intros _ Hp Hl Hm Hi Hs Hy Hc. unfold send, pack. rewrite Hp.
  cbn [mbind option_bind].
  rewrite message_pack_frame by done. cbn [mbind option_bind].
  eexists _, _. split_and!; [reflexivity|reflexivity| |].
  - unfold len. simpl. rewrite length_app. simpl. lia.
  - destruct (file this); reflexivity.
Qed.

End PackFacts.

(** *** jspack: unpacking what was packed *)

Section JspackFacts.
Context `{OC : OpaqueCodec}.
Import Roundtrip.

Lemma le_bytes_length k n : length (le_bytes k n) = k.
Proof. revert n. induction k as [|k IH]; intros n; simpl; [done|]. by rewrite IH. Qed.

Lemma le_value_le_bytes k n : le_value (le_bytes k n) = n mod 2 ^ (8 * Z.of_nat k).
Proof.
  revert n. induction k as [|k IH]; intros n.
  - simpl. by rewrite Z.mod_1_r.
  - cbn [le_bytes le_value]. rewrite IH.
    replace (8 * Z.of_nat (S k)) with (8 + 8 * Z.of_nat k) by lia.
    rewrite Z.pow_add_r by lia. change (2 ^ 8) with 256.
    rewrite Z.rem_mul_r by lia. done.
Qed.

Lemma wire_order_involutive be a : wire_order be (wire_order be a) = a.
Proof. destruct be; simpl; [apply reverse_involutive | done]. Qed.

Lemma wire_order_length be a : length (wire_order be a) = length a.
Proof. destruct be; simpl; [apply length_reverse | done]. Qed.

(** An integer in the range of its code is read back from its octets. *)
Lemma int_roundtrip sg k be n :
  (0 < k)%nat ->
  int_min sg k <= n <= int_max sg k ->
  (let rv := le_value (wire_order be (wire_order be (le_bytes k n))) in
   if sg && (2 ^ (8 * Z.of_nat k - 1) <=? rv)
   then rv - 2 ^ (8 * Z.of_nat k) else rv) = n.
Proof.
  intros Hk Hn. cbv zeta. rewrite wire_order_involutive, le_value_le_bytes.
  assert (2 ^ (8 * Z.of_nat k) = 2 * 2 ^ (8 * Z.of_nat k - 1)) as Hpow.
  { rewrite <- Z.pow_succ_r by lia. f_equal. lia. }
  assert (0 < 2 ^ (8 * Z.of_nat k - 1)) by (apply Z.pow_pos_nonneg; lia).
  unfold int_min, int_max in Hn. destruct sg; simpl.
  - destruct (Z.leb_spec (2 ^ (8 * Z.of_nat k - 1)) (n mod 2 ^ (8 * Z.of_nat k)))
      as [Hhi|Hlo].
    + destruct (decide (0 <= n)).
      * rewrite Z.mod_small in Hhi by lia. lia.
      * rewrite <- (Z.mod_add n 1) by lia. rewrite Z.mod_small by lia. lia.
    + destruct (decide (0 <= n)).
      * rewrite Z.mod_small by lia. done.
      * rewrite <- (Z.mod_add n 1) in Hlo by lia.
        rewrite Z.mod_small in Hlo by lia. lia.
  - rewrite Z.mod_small by lia. done.
Qed.

(** A value that fits a scalar item is read back from its octets. *)
Lemma elem_roundtrip ex be c v :
  c <> Fs -> fits ex be (None, c) v ->
  exists b, en_elem c be v = Some b /\ length b = lenLut c /\ de_elem c be b = v.
Proof.
  intros Hc Hv.
  destruct c; try done; cbn [fits int_code] in Hv.
  { destruct Hv as (ch & -> & Hch). exists [ch]. simpl. by rewrite Hch. }
  7-10: destruct Hv as (o & -> & Hlen & Hde); eexists;
    unfold en_elem, de_elem; cbv zeta;
    rewrite decide_True by done; (split_and!; [done..|]); by rewrite Hde.
  all: destruct Hv as (n & -> & Hn); eexists; unfold en_elem, de_elem;
    cbn [int_code]; cbv iota beta;
    rewrite (proj2 (Z.leb_le _ _) (proj1 Hn)), (proj2 (Z.leb_le _ _) (proj2 Hn));
    cbn [andb]; (split_and!; [done| |]);
    [ by rewrite wire_order_length, le_bytes_length
    | f_equal;
      match type of Hn with
      | int_min ?sg ?k <= _ <= _ => exact (int_roundtrip sg k be n ltac:(lia) Hn)
      end ].
Qed.

(** A string of exactly the item's length is read back from its octets. *)
Lemma string_roundtrip be cnt v :
  fits true be (cnt, Fs) v ->
  EnString (item_count (cnt, Fs)) v
  = Some (match v with JStr s => s | _ => [] end)
  /\ length (match v with JStr s => s | _ => [] end) = item_count (cnt, Fs)
  /\ DeString (match v with JStr s => s | _ => [] end) = v.
Proof.
  intros Hv. cbn [fits snd] in Hv. destruct Hv as (s & -> & Hs & Hlen).
  unfold EnString, DeString. rewrite Hs.
  rewrite take_ge by lia. rewrite Hlen, Nat.sub_diag. simpl.
  by rewrite app_nil_r.
Qed.

(** [Unpack] gives back the values that [Pack] packed, whatever octets
    follow, when every value fits its item exactly. *)
Lemma PackItems_UnpackItems be its vs :
  Forall2 (fits true be) its vs ->
  exists bs, PackItems be its vs = Some bs
             /\ length bs = CalcLength its
             /\ forall extra, UnpackItems be its (bs ++ extra) = Some vs.
Proof.
  induction 1 as [|it v its vs Hv _ IH].
  - exists []. by split_and!.
  - destruct IH as (bs & Hp & Hl & Hu).
    destruct it as [cnt c].
    destruct (decide (c = Fs)) as [->|Hc].
    + destruct (string_roundtrip _ _ _ Hv) as (He & Hlen & Hd).
      set (s := match v with JStr s => s | _ => [] end) in *.
      exists (s ++ bs). cbn [PackItems snd].
      rewrite He, Hp. split_and!; [done| |].
      * unfold CalcLength in *. rewrite length_app, Hl, Hlen. simpl. lia.
      * intros extra. cbn [UnpackItems snd lenLut].
        rewrite Nat.mul_1_r, <- Hlen.
        rewrite decide_False by (rewrite !length_app; lia).
        rewrite <- app_assoc, take_app_length, drop_app_length, Hu, Hd. done.
    + destruct cnt as [k|]; [by destruct c|].
      destruct (elem_roundtrip _ _ _ _ Hc Hv) as (b & He & Hlen & Hd).
      exists (b ++ bs).
      assert (PackItems be ((None, c) :: its) (v :: vs) = Some (b ++ bs)) as HP.
      { destruct c; try done; cbn [PackItems snd fst item_count default];
          (rewrite decide_True by (simpl; lia));
          change (take 1 (v :: vs)) with (v :: take 0 vs);
          change (drop 1 (v :: vs)) with vs;
          rewrite take_0; cbn [PackSeries];
          rewrite He, Hp, app_nil_r; done. }
      assert (forall extra,
                UnpackItems be ((None, c) :: its) ((b ++ bs) ++ extra)
                = match UnpackItems be its (bs ++ extra) with
                  | Some vs' => Some ([de_elem c be b] ++ vs')
                  | None => None
                  end) as HU.
      { intros extra.
        destruct c; try done; cbn [UnpackItems snd fst item_count default];
          rewrite Nat.mul_1_l, <- Hlen;
          (rewrite decide_False by (rewrite !length_app; lia));
          rewrite <- app_assoc, take_app_length, drop_app_length;
          cbn [UnpackSeries]; rewrite <- Hlen, firstn_all; done. }
      split_and!; [done| |].
      * unfold CalcLength in *. rewrite length_app, Hl, Hlen. simpl. lia.
      * intros extra. by rewrite HU, Hu, Hd.
Qed.

(** A value that fits its item exactly comes back as it is. *)
Lemma padded_exact be it v : fits true be it v -> padded it v = v.
Proof.
  destruct it as [cnt c]. unfold fits, padded. cbn [fst snd].
  destruct c; try done.
  intros (s & -> & _ & Hlen). rewrite Hlen, Nat.sub_diag. simpl.
  by rewrite app_nil_r.
Qed.

Lemma zip_with_padded_exact be its vs :
  Forall2 (fits true be) its vs -> zip_with padded its vs = vs.
Proof.
  induction 1 as [|it v its vs Hv _ IH]; [done|].
  cbn [zip_with]. by rewrite (padded_exact _ _ _ Hv), IH.
Qed.

(** A string of at most the item's length is written in the width of the
    item and read back padded. *)
Lemma string_roundtrip_padded ex be cnt v :
  fits ex be (cnt, Fs) v ->
  exists b, EnString (item_count (cnt, Fs)) v = Some b
            /\ length b = item_count (cnt, Fs)
            /\ DeString b = padded (cnt, Fs) v.
Proof.
  intros Hv. cbn [fits snd] in Hv. destruct Hv as (s & -> & Hs & Hlen).
  assert (length s <= item_count (cnt, Fs))%nat as Hle
    by (destruct ex; lia).
  unfold EnString, DeString, padded. cbn [snd]. rewrite Hs.
  rewrite take_ge by lia. eexists. split; [reflexivity|]. split; [|done].
  rewrite length_app, length_replicate. lia.
Qed.

(** [Unpack] gives back the values that [Pack] packed, short strings
    padded, whatever octets follow, when every value fits its item. *)
Lemma PackItems_UnpackItems_padded ex be its vs :
  Forall2 (fits ex be) its vs ->
  exists bs, PackItems be its vs = Some bs
             /\ length bs = CalcLength its
             /\ forall extra,
                  UnpackItems be its (bs ++ extra) = Some (zip_with padded its vs).
Proof.
  induction 1 as [|it v its vs Hv _ IH].
  - exists []. by split_and!.
  - destruct IH as (bs & Hp & Hl & Hu).
    destruct it as [cnt c].
    destruct (decide (c = Fs)) as [->|Hc].
    + destruct (string_roundtrip_padded _ _ _ _ Hv) as (s & He & Hlen & Hd).
      exists (s ++ bs). cbn [PackItems snd].
      rewrite He, Hp. split_and!; [done| |].
      * unfold CalcLength in *. rewrite length_app, Hl, Hlen. simpl. lia.
      * intros extra. cbn [UnpackItems snd lenLut zip_with].
        rewrite Nat.mul_1_r, <- Hlen.
        rewrite decide_False by (rewrite !length_app; lia).
        rewrite <- app_assoc, take_app_length, drop_app_length, Hu, Hd. done.
    + destruct cnt as [k|]; [by destruct c|].
      destruct (elem_roundtrip _ _ _ _ Hc Hv) as (b & He & Hlen & Hd).
      exists (b ++ bs).
      assert (padded (None, c) v = v) as Hpad by (by destruct c).
      assert (PackItems be ((None, c) :: its) (v :: vs) = Some (b ++ bs)) as HP.
      { destruct c; try done; cbn [PackItems snd fst item_count default];
          (rewrite decide_True by (simpl; lia));
          change (take 1 (v :: vs)) with (v :: take 0 vs);
          change (drop 1 (v :: vs)) with vs;
          rewrite take_0; cbn [PackSeries];
          rewrite He, Hp, app_nil_r; done. }
      assert (forall extra,
                UnpackItems be ((None, c) :: its) ((b ++ bs) ++ extra)
                = match UnpackItems be its (bs ++ extra) with
                  | Some vs' => Some ([de_elem c be b] ++ vs')
                  | None => None
                  end) as HU.
      { intros extra.
        destruct c; try done; cbn [UnpackItems snd fst item_count default];
          rewrite Nat.mul_1_l, <- Hlen;
          (rewrite decide_False by (rewrite !length_app; lia));
          rewrite <- app_assoc, take_app_length, drop_app_length;
          cbn [UnpackSeries]; rewrite <- Hlen, firstn_all; done. }
      split_and!; [done| |].
      * unfold CalcLength in *. rewrite length_app, Hl, Hlen. simpl. lia.
      * intros extra. rewrite HU, Hu, Hd. cbn [zip_with]. by rewrite Hpad.
Qed.

End JspackFacts.

(** *** Packing and decoding *)

Section RoundtripFacts.
Context `{OC : OpaqueCodec}.
Variable G : jsmodule.
Import Roundtrip.

Lemma index_Some (l : list string) x j : index l x = Some j -> l !! j = Some x.
Proof.
  revert j. induction l as [|y r IH]; intros j; simpl; [done|].
  case_decide as Hy.
  - by intros [= <-]; subst.
  - destruct (index r x) as [k|]; simpl; [|done].
    intros [= <-]. simpl. by apply IH.
Qed.

Lemma set_from_notin i0 names args (props : gmap string jsval) e :
  e ∉ names -> set_from i0 names args props !! e = props !! e.
Proof.
  revert i0 props. induction names as [|e0 r IH]; intros i0 props He; [done|].
  apply not_elem_of_cons in He as [Hne He].
  simpl. rewrite IH by done. by apply lookup_insert_ne.
Qed.

(** After [set], a field named in [names] holds the argument at the
    position of (any occurrence of) its name, when all occurrences agree. *)
Lemma set_from_lookup i0 names args (props : gmap string jsval) e (g : string -> jsval) :
  e ∈ names ->
  (forall k e', names !! k = Some e' -> arg_at args (i0 + k) = g e') ->
  set_from i0 names args props !! e = Some (g e).
Proof.
  revert i0 props. induction names as [|e0 r IH]; intros i0 props He Hg.
  - by apply elem_of_nil in He.
  - simpl. destruct (decide (e ∈ r)) as [Hr|Hr].
    + apply IH; [done|]. intros k e' Hk.
      replace (S i0 + k)%nat with (i0 + S k)%nat by lia. by apply Hg.
    + rewrite set_from_notin by done.
      apply elem_of_cons in He as [->|He]; [|done].
      rewrite lookup_insert_eq. f_equal.
      rewrite <- (Nat.add_0_r i0). by apply Hg.
Qed.

Lemma reorder_arg om (t : list jsval) i j v :
  om !! i = Some j -> t !! j = Some v -> (i < length t)%nat ->
  arg_at (reorder om t) i = v.
Proof.
  intros Hi Hj Hlt. unfold arg_at, reorder.
  rewrite list_lookup_imap.
  destruct (lookup_lt_is_Some_2 t i Hlt) as [x ->]. simpl.
  by rewrite Hi; simpl; rewrite Hj.
Qed.

Lemma fits_not_undef ex be it : ~ fits ex be it JUndef.
Proof.
  destruct it as [cnt c]. unfold fits. cbn [fst snd]. intros H.
  destruct c, cnt; cbn [int_code] in H; try done;
    by destruct H as (s & Hs & _).
Qed.

Lemma transmitted_crc_app (pre : list Z) lo hi :
  Spec.transmitted_crc (pre ++ [lo; hi]) = lo + 256 * hi.
Proof.
  unfold Spec.transmitted_crc, Spec.octet. rewrite length_app. simpl.
  replace (length pre + 2 - 2)%nat with (length pre + 0)%nat by lia.
  replace (length pre + 2 - 1)%nat with (length pre + 1)%nat by lia.
  by rewrite !lookup_app_r, !Nat.add_sub' by lia.
Qed.

Lemma slice_middle (b0 : Z) mid lo hi :
  slice (b0 :: mid ++ [lo; hi]) 1 (len (b0 :: mid ++ [lo; hi]) - 2) = mid.
Proof.
  assert (len (b0 :: mid ++ [lo; hi]) = len mid + 3) as ->
    by (unfold len; simpl; rewrite length_app; simpl; lia).
  pose proof (len_nonneg mid).
  rewrite slice_nonneg by lia.
  change (drop (Z.to_nat 1) (b0 :: mid ++ [lo; hi])) with (mid ++ [lo; hi]).
  replace (Z.to_nat (len mid + 3 - 2) - Z.to_nat 1)%nat with (length mid)
    by (unfold len; lia).
  apply take_app_length.
Qed.

(** [decode] of the frame that [pack] builds, for field values that fit
    the items of the format: the frame decodes, and the fields of the result
    are those that [set] makes of the packed values, short strings padded,
    put back into declaration order. *)
Lemma pack_decode_fields ex (mav : MAVLink) (m : message) :
  PROTOCOL_MARKER G = 254 ->
  registered G (m_class m) ->
  octet_context mav ->
  valid_assignment ex m ->
  exists frame m',
    snd <$> pack G m mav = Some frame
    /\ decode G frame = inr m'
    /\ m_fields m'
       = set_from 0 (c_fieldnames (m_class m))
           (reorder (c_order_map (m_class m))
              (zip_with padded (items (c_format (m_class m)))
                 (map (field_value m) (c_ordered_fieldnames (m_class m)))))
           (set_from 0 (c_fieldnames (m_class m)) [] ∅).
Proof.
  intros HM (Hlk & Hid & Hcl & _) (Hs & Hy & Hc) Hv.
  destruct (PackItems_UnpackItems_padded _ _ _ _ Hv) as (payload & Hp & Hpl & Hu).
  assert (len payload < 256) as Hlen by (unfold len; lia).
  unfold pack. unfold Pack at 1. rewrite Hp.
  cbn [mbind option_bind].
  rewrite message_pack_frame by (rewrite ?HM; done).
  cbn [fmap option_fmap option_map snd]. eexists _, _. split; [reflexivity|].
  rewrite HM.
  set (crc := x25Crc [c_crc_extra (m_class m)] _).
  assert (0 <= crc < 65536) as Hcrc by apply x25Crc_extra_range.
  set (mid := [len payload; seq mav; srcSystem mav; srcComponent mav;
               c_id (m_class m)] ++ payload) in *.
  change ([254; len payload; seq mav; srcSystem mav; srcComponent mav;
           c_id (m_class m)] ++ payload ++ [crc mod 256; crc / 256])
    with (254 :: mid ++ [crc mod 256; crc / 256]).
  assert (Spec.transmitted_crc (254 :: mid ++ [crc mod 256; crc / 256]) = crc)
    as Htx.
  { change (254 :: mid ++ [crc mod 256; crc / 256])
      with ((254 :: mid) ++ [crc mod 256; crc / 256]).
    rewrite transmitted_crc_app.
    rewrite (Z.div_mod crc 256) at 3 by lia. lia. }
  assert (Spec.recomputed_crc (c_crc_extra (m_class m))
            (254 :: mid ++ [crc mod 256; crc / 256]) = crc) as Hrc.
  { unfold Spec.recomputed_crc. by rewrite slice_middle. }
  assert (len (254 :: mid ++ [crc mod 256; crc / 256]) - 8 = len payload)
    as Hl8.
  { unfold len, mid. simpl. rewrite length_app. simpl. lia. }
  pose proof (decode_long G 254 (len payload) (seq mav) (srcSystem mav)
                (srcComponent mav) (c_id (m_class m))
                (payload ++ [crc mod 256; crc / 256])) as Hdec.
  cbv zeta in Hdec.
  change (254 :: len payload :: seq mav :: srcSystem mav :: srcComponent mav
          :: c_id (m_class m) :: payload ++ [crc mod 256; crc / 256])
    with (254 :: mid ++ [crc mod 256; crc / 256]) in Hdec.
  rewrite Hl8, Hlk, Htx, Hrc, !Z.eqb_refl in Hdec.
  change (negb (254 =? 254)) with false in Hdec. cbn [negb] in Hdec.
  unfold Unpack in Hdec. rewrite Hu in Hdec.
  split; [exact Hdec|]. reflexivity.
Qed.

(** C1, as the code has it: for a class emitted by [generate] and looked up
    under its id in a module whose marker is 254, without field names of the
    runtime's own, a connection whose counter and identifiers are octets,
    and field values that fit the format items (integers in range, one
    character for a [char], opaque values that the element codec reads back
    unchanged, strings of at most the declared length, no numeric array
    fields), [decode] of the frame that [pack] builds succeeds; when every
    string has exactly its declared length, every declared field of the
    result equals the field of the packed message; and when the field names
    are pairwise distinct, the field at each wire position of the result is
    the packed value, a short string padded with zero octets to the declared
    length. *)
Theorem pack_decode_roundtrip (mav : MAVLink) (m : message) :
  PROTOCOL_MARKER G = 254 ->
  registered G (m_class m) ->
  own_names_free (m_class m) ->
  octet_context mav ->
  valid_assignment false m ->
  (valid_assignment true m -> roundtrips G mav m)
  /\ (NoDup (c_fieldnames (m_class m)) -> roundtrips_padded G mav m).
Proof.
  intros HM Hreg _ Hctx Hv.
  pose proof Hreg as (Hlk & Hid & Hcl & mt & little & Hgen & Hperm).
  unfold generate_message in Hgen.
  destruct (mapM (index (ordered_fieldnames mt)) (fieldnames mt)) as [om|] eqn:Hom;
    [|done].
  cbn [mbind option_bind] in Hgen. injection Hgen as Hcls.
  apply mapM_Some in Hom.
  assert (length (ordered_fieldnames mt) = length (fieldnames mt)) as Hlens.
  { unfold ordered_fieldnames, fieldnames. rewrite !length_map.
    by apply Permutation_length. }
  assert (forall k e', fieldnames mt !! k = Some e' ->
            exists j, om !! k = Some j /\ ordered_fieldnames mt !! j = Some e')
    as Hfield.
  { intros k e' Hk.
    destruct (Forall2_lookup_l _ _ _ _ _ Hom Hk) as (j & Hj & Hidx).
    exists j. split; [done|]. by apply index_Some. }
  split.
  - (* strings of exactly the declared length *)
    intros Hex.
    destruct (pack_decode_fields true mav m HM Hreg Hctx Hex)
      as (frame & m' & Hp & Hd & Hf).
    exists frame, m'. split; [done|]. split; [done|].
    rewrite Hf. clear Hp Hd Hf.
    unfold valid_assignment in Hex.
    rewrite (zip_with_padded_exact _ _ _ Hex).
    rewrite <- Hcls in Hex |- *.
    cbn [c_format c_fieldnames c_order_map c_ordered_fieldnames bBE items] in *.
    assert (forall e', e' ∈ fieldnames mt -> field_value m e' <> JUndef) as Hval.
    { intros e' [k Hk]%list_elem_of_lookup Hundef.
      destruct (Hfield k e' Hk) as (j & _ & Hj).
      assert (map (field_value m) (ordered_fieldnames mt) !! j
              = Some (field_value m e')) as Hvj
        by (by rewrite list_lookup_fmap, Hj).
      destruct (Forall2_lookup_r _ _ _ _ _ Hex Hvj) as (it & _ & Hfit).
      rewrite Hundef in Hfit. by apply fits_not_undef in Hfit. }
    intros f Hf.
    rewrite (set_from_lookup 0 _ _ _ f (field_value m)); [|done|].
    + specialize (Hval f Hf). unfold field_value in *.
      by destruct (m_fields m !! f).
    + intros k e' Hk. destruct (Hfield k e' Hk) as (j & Hj & Ho).
      apply (reorder_arg _ _ _ j); [done| |].
      * by rewrite list_lookup_fmap, Ho.
      * rewrite length_map, Hlens. by eapply lookup_lt_Some.
  - (* strings of at most the declared length, distinct field names *)
    intros Hnd.
    destruct (pack_decode_fields false mav m HM Hreg Hctx Hv)
      as (frame & m' & Hp & Hd & Hf).
    exists frame, m'. split; [done|]. split; [done|].
    rewrite Hf. clear Hp Hd Hf.
    unfold valid_assignment in Hv.
    rewrite <- Hcls in Hv, Hnd |- *.
    cbn [c_format c_fieldnames c_order_map c_ordered_fieldnames bBE items] in *.
    set (t := zip_with padded (map mavfmt (ordered_fields mt))
                (map (field_value m) (ordered_fieldnames mt))).
    assert (length t = length (fieldnames mt)) as Hlt.
    { unfold t. rewrite length_zip_with, !length_map, <- Hlens.
      unfold ordered_fieldnames. rewrite length_map. lia. }
    assert (NoDup (ordered_fieldnames mt)) as Hndo.
    { eapply NoDup_Permutation_proper; [|exact Hnd].
      unfold ordered_fieldnames, fieldnames. by apply fmap_Permutation. }
    intros j f it Hj Hit.
    assert (f ∈ fieldnames mt) as Hin.
    { assert (ordered_fieldnames mt ≡ₚ fieldnames mt) as Hpn
        by (unfold ordered_fieldnames, fieldnames; by apply fmap_Permutation).
      rewrite <- Hpn. apply list_elem_of_lookup. by exists j. }
    assert (t !! j = Some (padded it (field_value m f))) as Htj.
    { unfold t. rewrite lookup_zip_with, Hit. cbn [mbind option_bind].
      by rewrite list_lookup_fmap, Hj. }
    rewrite (set_from_lookup 0 _ _ _ f
               (fun e' => default JUndef
                            (index (ordered_fieldnames mt) e' ≫= fun i => t !! i)));
      [|done|].
    + apply list_elem_of_lookup in Hin as [k Hk].
      destruct (Forall2_lookup_l _ _ _ _ _ Hom Hk) as (j' & _ & Hidx).
      rewrite Hidx. cbn [mbind option_bind].
      apply index_Some in Hidx.
      rewrite (NoDup_lookup _ _ _ _ Hndo Hidx Hj). by rewrite Htj.
    + intros k e' Hk.
      destruct (Forall2_lookup_l _ _ _ _ _ Hom Hk) as (j' & Hj' & Hidx).
      rewrite Hidx. cbn [mbind option_bind].
      assert (j' < length t)%nat as Hj'lt.
      { apply index_Some in Hidx. apply lookup_lt_Some in Hidx. lia. }
      destruct (lookup_lt_is_Some_2 t j' Hj'lt) as [v Hv'].
      rewrite Hv'. cbn [default].
      apply (reorder_arg _ _ _ j'); [done|done|].
      rewrite Hlt. by eapply lookup_lt_Some.
Qed.

(** A class of the emitted module is found under its id when the ids of
    the module are pairwise distinct, and it is what [generate_message] makes
    of one of the messages of the dialect files. *)
Lemma build_map_other (cs : list msgclass) (acc : gmap Z msgclass) k :
  k ∉ map c_id cs ->
  fold_left (fun acc c => <[c_id c := c]> acc) cs acc !! k = acc !! k.
Proof.
  revert acc. induction cs as [|x r IH]; intros acc Hk; [done|].
  simpl in Hk. apply not_elem_of_cons in Hk as [Hne Hk].
  simpl. rewrite IH by done. by apply lookup_insert_ne.
Qed.

Lemma build_map_lookup (cs : list msgclass) c :
  NoDup (map c_id cs) -> c ∈ cs -> build_map cs !! c_id c = Some c.
Proof.
  unfold build_map. generalize (∅ : gmap Z msgclass).
  induction cs as [|x r IH]; intros acc Hnd Hc.
  - by apply elem_of_nil in Hc.
  - simpl in *. apply NoDup_cons in Hnd as [Hx Hnd].
    apply elem_of_cons in Hc as [->|Hc].
    + rewrite build_map_other by done. apply lookup_insert_eq.
    + by apply IH.
Qed.

Lemma generate_lookup xml c :
  generate xml = Some G ->
  NoDup (map c_id (messages G)) ->
  c ∈ messages G ->
  mavlink_map G !! c_id c = Some c
  /\ exists mt little, mt ∈ concat (map Mavgen.message xml)
                       /\ generate_message little mt = Some c.
Proof.
  unfold generate. destruct xml as [|x0 xs]; [done|].
  destruct (mapM _ _) as [cs|] eqn:Hcs; [|done].
  cbn [mbind option_bind]. intros [= <-]. cbn [messages mavlink_map].
  intros Hnd Hc. split; [by apply build_map_lookup|].
  apply mapM_Some in Hcs.
  apply list_elem_of_lookup in Hc as [i Hi].
  destruct (Forall2_lookup_r _ _ _ _ _ Hcs Hi) as (mt & Hmt & Hgen).
  exists mt, (little_endian x0). split; [|done].
  apply list_elem_of_lookup. by exists i.
Qed.

End RoundtripFacts.

(** *** The generator *)

Section GeneratorFacts.

Lemma index_None (l : list string) x : index l x = None <-> x ∉ l.
Proof.
  induction l as [|y r IH]; simpl.
  - split; [intros _; apply not_elem_of_nil | done].
  - rewrite not_elem_of_cons. case_decide as Hy.
    + split; [done | intros [Hne _]; congruence].
    + destruct (index r x) as [k|]; simpl.
      * split; [done|]. intros [_ Hr]. by apply IH in Hr.
      * split; [|done]. intros _. split; [congruence | by apply IH].
Qed.

Lemma index_first (l : list string) x j :
  index l x = Some j -> forall j', (j' < j)%nat -> l !! j' <> Some x.
Proof.
  revert j. induction l as [|y r IH]; intros j; simpl; [done|].
  case_decide as Hy.
  - intros [= <-] j' Hj'. lia.
  - destruct (index r x) as [k|]; simpl; [|done].
    intros [= <-] [|j'] Hj'; simpl; [congruence|]. apply (IH k); [done|lia].
Qed.

(** X1: the [order_map] that [generate] computes has one entry per declared
    field, and entry [i] is the first position of the declared name [i] among
    the wire-ordered names: [fieldnames[i] = ordered_fieldnames[order_map[i]]]. *)
Theorem generate_order_map (little : bool) (mt : MAVType) (c : msgclass) :
  generate_message little mt = Some c ->
  length (c_order_map c) = length (fieldnames mt)
  /\ forall i e, fieldnames mt !! i = Some e ->
       exists j, c_order_map c !! i = Some j
                 /\ ordered_fieldnames mt !! j = Some e
                 /\ forall j', (j' < j)%nat -> ordered_fieldnames mt !! j' <> Some e.
Proof.
  unfold generate_message.
  destruct (mapM (index (ordered_fieldnames mt)) (fieldnames mt)) as [om|] eqn:Hom;
    [|done].
  cbn [mbind option_bind]. intros [= <-]. cbn [c_order_map].
  apply mapM_Some in Hom. split.
  - symmetry. by eapply Forall2_length.
  - intros i e Hi.
    destruct (Forall2_lookup_l _ _ _ _ _ Hom Hi) as (j & Hj & Hidx).
    exists j. split_and!; [done | by apply index_Some | by apply index_first].
Qed.

(** X2: [generate] raises (the [ValueError] of [list.index]) exactly when a
    declared field name does not occur among the wire-ordered names. *)
Theorem generate_message_fails (little : bool) (mt : MAVType) :
  generate_message little mt = None
  <-> exists e, e ∈ fieldnames mt /\ e ∉ ordered_fieldnames mt.
Proof.
  unfold generate_message.
  destruct (mapM (index (ordered_fieldnames mt)) (fieldnames mt)) as [om|] eqn:Hom.
  - cbn [mbind option_bind]. split; [done|]. intros (e & He & Hne).
    apply mapM_Some in Hom.
    apply list_elem_of_lookup in He as [i Hi].
    destruct (Forall2_lookup_l _ _ _ _ _ Hom Hi) as (j & _ & Hidx).
    apply index_Some in Hidx. exfalso. apply Hne.
    apply list_elem_of_lookup. by exists j.
  - cbn [mbind option_bind]. split; [|done]. intros _.
    destruct (decide (Forall (fun e => e ∈ ordered_fieldnames mt) (fieldnames mt)))
      as [Hall|Hnot].
    + assert (is_Some (mapM (index (ordered_fieldnames mt)) (fieldnames mt)))
        as [om Hsome]; [|congruence].
      apply mapM_is_Some. eapply Forall_impl; [exact Hall|].
      intros e He. simpl. destruct (index (ordered_fieldnames mt) e) eqn:E; [done|].
      by apply index_None in E.
    + apply not_Forall_Exists in Hnot; [|apply _].
      apply Exists_exists in Hnot as (e & He & Hne). by exists e.
Qed.

(** X3: when the declared names are pairwise distinct and the wire order is
    a permutation of the declaration order, the [order_map] that [generate]
    computes is a permutation of the indices [0 .. n-1]. *)
Theorem generate_order_map_permutation (little : bool) (mt : MAVType) (c : msgclass) :
  generate_message little mt = Some c ->
  NoDup (fieldnames mt) ->
  ordered_fields mt ≡ₚ fields mt ->
  c_order_map c ≡ₚ List.seq 0%nat (length (fields mt)).
Proof.
  intros Hgen Hnd Hperm.
  unfold generate_message in Hgen.
  destruct (mapM (index (ordered_fieldnames mt)) (fieldnames mt)) as [om|] eqn:Hom;
    [|done].
  cbn [mbind option_bind] in Hgen. injection Hgen as <-. cbn [c_order_map].
  apply mapM_Some in Hom.
  assert (length om = length (fields mt)) as Hlen.
  { rewrite <- (Forall2_length _ _ _ Hom). unfold fieldnames. by rewrite length_map. }
  assert (length (ordered_fieldnames mt) = length (fields mt)) as Hlo.
  { unfold ordered_fieldnames. rewrite length_map. by apply Permutation_length. }
  apply submseteq_length_Permutation; [|rewrite length_seq; lia].
  apply NoDup_submseteq.
  - apply NoDup_alt. intros i1 i2 j H1 H2.
    destruct (Forall2_lookup_r _ _ _ _ _ Hom H1) as (e1 & He1 & Hx1).
    destruct (Forall2_lookup_r _ _ _ _ _ Hom H2) as (e2 & He2 & Hx2).
    apply index_Some in Hx1, Hx2. assert (e1 = e2) as -> by congruence.
    by eapply NoDup_lookup.
  - intros j [i Hi]%list_elem_of_lookup.
    destruct (Forall2_lookup_r _ _ _ _ _ Hom Hi) as (e & _ & Hx).
    apply index_Some, lookup_lt_Some in Hx.
    apply elem_of_seq. lia.
Qed.

Lemma build_map_fold (cs : list msgclass) (acc : gmap Z msgclass) k :
  fold_left (fun acc c => <[c_id c := c]> acc) cs acc !! k
  = match last (filter (fun c => c_id c = k) cs) with
    | Some c => Some c
    | None => acc !! k
    end.
Proof.
  revert acc. induction cs as [|x r IH]; intros acc; [done|].
  cbn [fold_left]. rewrite IH, filter_cons.
  destruct (decide (c_id x = k)) as [Hx|Hx].
  - rewrite last_cons.
    destruct (last (filter (fun c => c_id c = k) r)); [done|].
    rewrite <- Hx. apply lookup_insert_eq.
  - destruct (last (filter (fun c => c_id c = k) r)); [done|].
    by apply lookup_insert_ne.
Qed.

(** X4: in the module that [generate] emits, the marker and the octet order
    of every message format are those of the first dialect file, whatever the
    other files declare, the classes are those of the messages of all files
    in order, and [mavlink.map] holds under each id the last class emitted
    with that id (nothing under an id that no message has). *)
Theorem generate_module (x0 : MAVXML) (xs : list MAVXML) (G : jsmodule) :
  generate (x0 :: xs) = Some G ->
  PROTOCOL_MARKER G = Mavgen.protocol_marker x0
  /\ Forall2 (fun mt c => generate_message (little_endian x0) mt = Some c)
       (concat (map Mavgen.message (x0 :: xs))) (messages G)
  /\ Forall (fun c => bBE (c_format c) = negb (little_endian x0)) (messages G)
  /\ forall k, mavlink_map G !! k
               = last (filter (fun c => c_id c = k) (messages G)).
Proof.
  unfold generate.
  destruct (mapM _ _) as [cs|] eqn:Hcs; [|done].
  cbn [mbind option_bind]. intros [= <-].
  cbn [PROTOCOL_MARKER messages mavlink_map].
  apply mapM_Some in Hcs. split_and!; [done|done| |].
  - apply Forall_forall. intros c [i Hi]%list_elem_of_lookup.
    destruct (Forall2_lookup_r _ _ _ _ _ Hcs Hi) as (mt & _ & Hgen).
    unfold generate_message in Hgen.
    destruct (mapM _ _); [|done]. cbn [mbind option_bind] in Hgen.
    by injection Hgen as <-.
  - intros k. unfold build_map. rewrite build_map_fold.
    by destruct (last _).
Qed.

End GeneratorFacts.

(** *** The output paths *)

Section PathFacts.
Import Paths.
Variable os_sep : Ascii.ascii.

Lemma rfind_absent (s : list Ascii.ascii) c : c ∉ s -> rfind s c = -1.
Proof.
  induction s as [|x r IH]; [done|]. intros [Hne Hr]%not_elem_of_cons.
  simpl. rewrite (IH Hr). simpl. by rewrite decide_False by congruence.
Qed.

Lemma rfind_last (dir file : list Ascii.ascii) c :
  c ∉ file -> rfind (dir ++ c :: file) c = Z.of_nat (length dir).
Proof.
  intros Hc. induction dir as [|x r IH].
  - simpl. rewrite (rfind_absent _ _ Hc). simpl. by rewrite decide_True.
  - cbn [app rfind length]. rewrite IH.
    rewrite (proj2 (Z.leb_le 0 (Z.of_nat (length r)))) by lia. lia.
Qed.

(** X5: [generate] puts jspack.js beside the output file: for a [basename]
    whose last [os.sep] splits it into a directory and a file name, the
    jspack path is the directory followed by "/jspack.js" (a slash, whatever
    [os.sep] is); for a [basename] without [os.sep] it is "jspack.js". *)
Theorem jspackFilename_location (basename : list Ascii.ascii) :
  (os_sep ∉ basename ->
   jspackFilename os_sep basename = String.list_ascii_of_string "jspack.js")
  /\ (forall dir file,
        basename = dir ++ os_sep :: file -> os_sep ∉ file ->
        jspackFilename os_sep basename
        = dir ++ String.list_ascii_of_string "/jspack.js").
Proof.
  split.
  - intros Hs. unfold jspackFilename. by rewrite (rfind_absent _ _ Hs).
  - intros dir file -> Hf. unfold jspackFilename. rewrite (rfind_last _ _ _ Hf).
    rewrite (proj2 (Z.leb_le 0 _)) by lia.
    by rewrite Nat2Z.id, take_app_length.
Qed.

(** X6: the name of the file that [generate] writes always ends in ".js",
    starts with [basename], and is [basename] itself when that already ends in
    ".js"; computing the name from a name gives the same name. *)
Theorem filename_js (basename : list Ascii.ascii) :
  endswith (filename basename) (String.list_ascii_of_string ".js") = true
  /\ basename `prefix_of` filename basename
  /\ (endswith basename (String.list_ascii_of_string ".js") = true ->
      filename basename = basename)
  /\ filename (filename basename) = filename basename.
Proof.
  assert (endswith (filename basename) (String.list_ascii_of_string ".js") = true)
    as Hend.
  { unfold filename. destruct (endswith basename _) eqn:E; [done|].
    unfold endswith. apply bool_decide_eq_true. by apply suffix_app_r. }
  split_and!; [done| | |].
  - unfold filename. destruct (endswith basename _); [done|]. by apply prefix_app_r.
  - intros E. unfold filename. by rewrite E.
  - unfold filename at 1. by rewrite Hend.
Qed.

End PathFacts.

(** *** More on the checksum *)

Section CrcMore.

Lemma fold_x25_step_range (buffer : list Z) (s : Z) :
  buffer <> [] -> 0 <= fold_left x25_step buffer s < 65536.
Proof.
  induction buffer as [|e l _] using rev_ind; [done|].
  intros _. rewrite fold_left_app. simpl. apply x25_step_range.
Qed.

(** X7: over a buffer that is not empty, [x25Crc] returns a 16-bit value
    whatever the seed; over the empty buffer it returns the seed it was given
    (0xFFFF for no seed or the seed 0), which need not fit 16 bits. *)
Theorem x25Crc_range (buffer : list Z) (crc : option Z) :
  (buffer <> [] -> 0 <= x25Crc buffer crc < 65536)
  /\ x25Crc [] crc = crc_or_default crc.
Proof.
  split; [|done]. intros Hb. by apply fold_x25_step_range.
Qed.

(** X8: a checksum continued from a running value that is not zero is the
    checksum of the concatenation; continued from a running value of zero it
    is the checksum of the second part alone, started afresh from 0xFFFF. *)
Theorem x25Crc_continue (a b : list Z) (crc : option Z) :
  (x25Crc a crc <> 0 -> x25Crc b (Some (x25Crc a crc)) = x25Crc (a ++ b) crc)
  /\ (x25Crc a crc = 0 -> x25Crc b (Some (x25Crc a crc)) = x25Crc b None).
Proof.
  split.
  - intros Hne. unfold x25Crc at 1. unfold crc_or_default at 1.
    rewrite (proj2 (Z.eqb_neq _ _) Hne). unfold x25Crc.
    by rewrite fold_left_app.
  - by intros ->.
Qed.

Lemma x25_step_low_octet (crc e : Z) : x25_step crc (e mod 256) = x25_step crc e.
Proof.
  unfold x25_step.
  assert (Z.land (Z.lxor (Z.lxor (e mod 256) (Z.land crc 255))
                    (Z.shiftl (Z.lxor (e mod 256) (Z.land crc 255)) 4)) 255
          = Z.land (Z.lxor (Z.lxor e (Z.land crc 255))
                      (Z.shiftl (Z.lxor e (Z.land crc 255)) 4)) 255) as ->; [|done].
  apply Z.bits_inj'. intros n Hn. rewrite !Z.land_spec.
  destruct (Z.ltb_spec n 8) as [Hlt|Hge].
  - f_equal. rewrite !Z.lxor_spec, !Z.shiftl_spec, !Z.lxor_spec by lia.
    change 256 with (2 ^ 8). rewrite Z.mod_pow2_bits_low by lia.
    destruct (Z.ltb_spec (n - 4) 0).
    + by rewrite !(Z.testbit_neg_r _ (n - 4)) by lia.
    + by rewrite (Z.mod_pow2_bits_low e 8 (n - 4)) by lia.
  - change 255 with (Z.ones 8). rewrite Z.ones_spec_high by lia.
    by rewrite !andb_false_r.
Qed.

(** X9: [x25Crc] reads each element of the buffer through its low eight
    bits only: replacing every element by its residue modulo 256 does not
    change the checksum. *)
Theorem x25Crc_low_octets (buffer : list Z) (crc : option Z) :
  x25Crc (map (fun e => e mod 256) buffer) crc = x25Crc buffer crc.
Proof.
  unfold x25Crc. generalize (crc_or_default crc).
  induction buffer as [|e r IH]; intros s; [done|].
  simpl. by rewrite x25_step_low_octet, IH.
Qed.

End CrcMore.

(** *** More on packing and sending *)

Section PackMore.
Context `{OC : OpaqueCodec}.
Variable G : jsmodule.
Import Traffic.

Lemma en_elem_length c be v b : en_elem c be v = Some b -> length b = lenLut c.
Proof.
  unfold en_elem. destruct c; cbn [int_code lenLut];
    repeat (match goal with
            | |- context [match ?x with _ => _ end] => destruct x
            end; try done).
  all: try (intros [= <-]; by rewrite ?wire_order_length, ?le_bytes_length).
Qed.

Lemma PackSeries_length c be vs b :
  PackSeries c be vs = Some b -> length b = (length vs * lenLut c)%nat.
Proof.
  revert b. induction vs as [|v r IH]; intros b; simpl.
  - by intros [= <-].
  - destruct (en_elem c be v) as [b1|] eqn:E1; [|done].
    destruct (PackSeries c be r) as [b2|]; [|done].
    intros [= <-]. rewrite length_app, (en_elem_length _ _ _ _ E1), (IH b2) by done.
    lia.
Qed.

Lemma EnString_length n v b : EnString n v = Some b -> length b = n.
Proof.
  unfold EnString. destruct v; try done. destruct (forallb is_octet s); [|done].
  intros [= <-]. rewrite length_app, length_take, length_replicate. lia.
Qed.

(** Whatever [Pack] produces has the width of the format. *)
Lemma PackItems_length be its vs bs :
  PackItems be its vs = Some bs -> length bs = CalcLength its.
Proof.
  revert vs bs. induction its as [|[cnt c] rest IH]; intros vs bs.
  - simpl. by intros [= <-].
  - unfold CalcLength in *. cbn [PackItems snd].
    destruct (decide (c = Fs)) as [->|Hc].
    + destruct vs as [|v vs]; [done|].
      destruct (EnString _ v) as [b1|] eqn:E1; [|done].
      destruct (PackItems be rest vs) as [b2|] eqn:E2; [|done].
      intros [= <-].
      rewrite length_app, (EnString_length _ _ _ E1), (IH _ _ E2). simpl.
      by rewrite Nat.mul_1_r.
    + assert (forall (X : option (list Z)),
                match c with Fs => X | _ =>
                  if decide (item_count (cnt, c) <= length vs)%nat then
                    match PackSeries c be (take (item_count (cnt, c)) vs),
                          PackItems be rest (drop (item_count (cnt, c)) vs) with
                    | Some b, Some bs => Some (b ++ bs)
                    | _, _ => None
                    end
                  else None
                end
                = if decide (item_count (cnt, c) <= length vs)%nat then
                    match PackSeries c be (take (item_count (cnt, c)) vs),
                          PackItems be rest (drop (item_count (cnt, c)) vs) with
                    | Some b, Some bs => Some (b ++ bs)
                    | _, _ => None
                    end
                  else None) as Hm by (intros X; by destruct c).
      intros Hp.
      assert ((if decide (item_count (cnt, c) <= length vs)%nat then
                 match PackSeries c be (take (item_count (cnt, c)) vs),
                       PackItems be rest (drop (item_count (cnt, c)) vs) with
                 | Some b, Some bs => Some (b ++ bs)
                 | _, _ => None
                 end
               else None) = Some bs) as Hp'.
      { rewrite <- Hp. destruct c; done. }
      clear Hp Hm. case_decide as Hn; [|done].
      destruct (PackSeries c be _) as [b1|] eqn:E1; [|done].
      destruct (PackItems be rest _) as [b2|] eqn:E2; [|done].
      injection Hp' as <-.
      rewrite length_app, (PackSeries_length _ _ _ _ E1), (IH _ _ E2).
      rewrite length_take, Nat.min_l by done. reflexivity.
Qed.

Lemma en_elem_FB_inv be n b :
  en_elem FB be (JNum n) = Some b -> b = [n] /\ is_octet n = true.
Proof.
  unfold en_elem. simpl int_code. cbv iota beta.
  change (int_min false 1) with 0. change (int_max false 1) with 255.
  destruct (Z.leb_spec 0 n); [|done]. destruct (Z.leb_spec n 255); [|done].
  cbn [andb]. intros [= <-]. simpl. rewrite Z.mod_small by lia.
  split; [by destruct be|]. apply is_octet_range. lia.
Qed.

Lemma header_pack_inv h hp :
  header_pack G h = Some hp ->
  hp = [PROTOCOL_MARKER G; h_mlen h; h_seq h; h_srcSystem h; h_srcComponent h;
        h_msgId h].
Proof.
  unfold header_pack, Pack, fmt_BBBBBB. cbn -[en_elem].
  repeat (match goal with
          | |- context [en_elem FB true (JNum ?n)] =>
              let E := fresh "E" in
              destruct (en_elem FB true (JNum n)) eqn:E; [|done];
              apply en_elem_FB_inv in E as [-> _]
          end).
  by intros [= <-].
Qed.

(** X10: the frame of [mavlink.message.prototype.pack] for a message of a
    class without field names of the runtime's own, octet by octet: the
    module's marker, the payload length, the connection's sequence counter,
    system and component ids, the message id, the payload, and the 16-bit
    checksum low octet first, where the checksum is [x25Crc] over
    everything between marker and checksum, handed as seed to [x25Crc] over
    [crc_extra] (which continues from it unless it is 0, and then starts
    afresh from 0xffff); the message object receives the payload, the header
    and the frame and keeps its fields. *)
Theorem message_pack_layout (this : message) (mav : MAVLink) (crc_extra : Z)
    (payload : list Z) :
  own_names_free (m_class this) ->
  is_octet (PROTOCOL_MARKER G) = true -> is_octet (c_id (m_class this)) = true ->
  is_octet (seq mav) = true -> is_octet (srcSystem mav) = true ->
  is_octet (srcComponent mav) = true -> len payload < 256 ->
  exists crc m',
    crc = x25Crc [crc_extra]
            (Some (x25Crc ([len payload; seq mav; srcSystem mav; srcComponent mav;
                            c_id (m_class this)] ++ payload) None))
    /\ 0 <= crc < 65536
    /\ message_pack G this mav crc_extra payload
       = Some (m', [PROTOCOL_MARKER G; len payload; seq mav; srcSystem mav;
                    srcComponent mav; c_id (m_class this)]
                   ++ payload ++ [crc mod 256; crc / 256])
    /\ m_payload m' = Some payload
    /\ m_msgbuf m' = Some ([PROTOCOL_MARKER G; len payload; seq mav; srcSystem mav;
                            srcComponent mav; c_id (m_class this)]
                           ++ payload ++ [crc mod 256; crc / 256])
    /\ m_header m' = Some {| h_msgId := c_id (m_class this); h_mlen := len payload;
                             h_seq := seq mav; h_srcSystem := srcSystem mav;
                             h_srcComponent := srcComponent mav |}
    /\ m_fields m' = m_fields this.
Proof.
  intros _ Hm Hi Hs Hy Hc Hl. eexists _, _. split; [reflexivity|].
  split; [apply x25Crc_extra_range|].
  split; [by apply message_pack_frame|]. by split_and!.
Qed.

(** X11: every frame that the [pack] method of a message class without
    field names of the runtime's own produces has the same length, 8 more
    than the width of the class format; it starts with the module's marker,
    its second octet is that width and its sixth the message id. *)
Theorem pack_frame_width (m m' : message) (mav : MAVLink) (frame : list Z) :
  own_names_free (m_class m) ->
  pack G m mav = Some (m', frame) ->
  length frame = (8 + CalcLength (items (c_format (m_class m))))%nat
  /\ frame !! 0%nat = Some (PROTOCOL_MARKER G)
  /\ frame !! 1%nat = Some (Z.of_nat (CalcLength (items (c_format (m_class m)))))
  /\ frame !! 5%nat = Some (c_id (m_class m))
  /\ m_msgbuf m' = Some frame.
Proof.
  intros _. unfold pack.
  destruct (Pack _ _) as [payload|] eqn:Hp; [|done]. cbn [mbind option_bind].
  apply PackItems_length in Hp.
  unfold message_pack.
  destruct (header_pack G _) as [hp|] eqn:Hh; [|done]. cbn [mbind option_bind].
  apply header_pack_inv in Hh. cbn [h_mlen h_seq h_srcSystem h_srcComponent h_msgId] in Hh.
  destruct (Pack fmt_lt_H _) as [cb|] eqn:Hc; [|done]. cbn [mbind option_bind].
  apply PackItems_length in Hc. change (CalcLength (items fmt_lt_H)) with 2%nat in Hc.
  intros [= <- <-]. subst hp. cbn [m_msgbuf]. split_and!; try done.
  - rewrite !length_app, Hc, Hp. simpl. lia.
  - simpl. unfold len. by rewrite Hp.
Qed.

Lemma index_NoDup (l : list string) k e :
  NoDup l -> l !! k = Some e -> index l e = Some k.
Proof.
  intros Hnd Hk.
  destruct (index l e) as [j|] eqn:E.
  - f_equal. apply index_Some in E. by eapply NoDup_lookup.
  - apply index_None in E. exfalso. apply E. apply list_elem_of_lookup. by exists k.
Qed.

(** X12: [mavlink.message.prototype.set] on a message whose field names are
    pairwise distinct and none of the runtime's own stores argument [i]
    under field name [i] ([undefined] when there are fewer arguments) and
    leaves every other property as it was. *)
Theorem set_fields (this : message) (args : list jsval) :
  own_names_free (m_class this) ->
  NoDup (c_fieldnames (m_class this)) ->
  (forall i e, c_fieldnames (m_class this) !! i = Some e ->
               m_fields (set this args) !! e = Some (arg_at args i))
  /\ (forall e, e ∉ c_fieldnames (m_class this) ->
                m_fields (set this args) !! e = m_fields this !! e)
  /\ m_class (set this args) = m_class this
  /\ m_msgbuf (set this args) = m_msgbuf this.
Proof.
  intros _ Hnd. split_and!; [| |done|done].
  - intros i e Hi. cbn [set m_fields].
    rewrite (set_from_lookup 0 _ _ _ e
               (fun e' => match index (c_fieldnames (m_class this)) e' with
                          | Some k => arg_at args k
                          | None => JUndef
                          end)).
    + by rewrite (index_NoDup _ _ _ Hnd Hi).
    + apply list_elem_of_lookup. by exists i.
    + intros k e' Hk. by rewrite (index_NoDup _ _ _ Hnd Hk).
  - intros e He. cbn [set m_fields]. by apply set_from_notin.
Qed.

(** One [send] of a packable message on a connection with a transport,
    with the connection afterwards written out. *)
Lemma send_step (this : MAVLink) (written : list (list Z)) (m : message) :
  file this = Some written ->
  is_octet (PROTOCOL_MARKER G) = true ->
  is_octet (seq this) = true ->
  is_octet (srcSystem this) = true ->
  is_octet (srcComponent this) = true ->
  packable m ->
  exists frame m',
    send G this m
    = Some (mkMAVLink ((seq this + 1) mod 256) (buf this) (bufInError this)
              (srcSystem this) (srcComponent this) (expected_length this)
              (protocol_marker this) (total_packets_sent this + 1)
              (total_bytes_sent this + len frame) (total_packets_received this)
              (total_bytes_received this) (total_receive_errors this)
              (Some (written ++ [frame])),
            m', Returns)
    /\ frame !! 2%nat = Some (seq this).
Proof.
  intros Hf Hm Hs Hy Hc (_ & payload & Hp & Hl & Hi). unfold send, pack.
  rewrite Hp. cbn [mbind option_bind].
  rewrite message_pack_frame by done. cbn [mbind option_bind]. rewrite Hf.
  eexists _, _. split; reflexivity.
Qed.

(** X13: sending a list of packable messages one after the other on a
    connection with a transport attached as [file], whose counter and
    identifiers are octets, hands one frame per message to [file.write], in
    order, and every call returns; frame [k] carries the sequence octet
    [(seq + k) mod 256]; afterwards the counter is [(seq + n) mod 256],
    [total_packets_sent] has grown by [n] and [total_bytes_sent] by the
    number of octets written, and the receive side of the connection is as
    before. *)
Theorem send_all_sequence (this : MAVLink) (written : list (list Z))
    (ms : list message) :
  file this = Some written ->
  is_octet (PROTOCOL_MARKER G) = true ->
  is_octet (seq this) = true ->
  is_octet (srcSystem this) = true ->
  is_octet (srcComponent this) = true ->
  Forall packable ms ->
  exists this' frames,
    send_all G this ms = Some (this', Returns)
    /\ file this' = Some (written ++ frames)
    /\ length frames = length ms
    /\ (forall k f, frames !! k = Some f ->
                    f !! 2%nat = Some ((seq this + Z.of_nat k) mod 256))
    /\ seq this' = (seq this + len ms) mod 256
    /\ total_packets_sent this' = total_packets_sent this + len ms
    /\ total_bytes_sent this' = total_bytes_sent this + len (concat frames)
    /\ buf this' = buf this
    /\ expected_length this' = expected_length this
    /\ total_packets_received this' = total_packets_received this
    /\ total_bytes_received this' = total_bytes_received this
    /\ total_receive_errors this' = total_receive_errors this.
Proof.
  intros Hf Hm Hs Hy Hc Hall. revert this written Hf Hs Hy Hc.
  induction Hall as [|m rest Hpk _ IH]; intros this written Hf Hs Hy Hc.
  - exists this, []. cbn [send_all].
    apply is_octet_range in Hs.
    assert (len (@nil message) = 0) as -> by done.
    assert (len (concat (@nil (list Z))) = 0) as -> by done.
    rewrite !Z.add_0_r, Z.mod_small, app_nil_r by lia. by split_and!.
  - cbn [send_all].
    destruct (send_step this written m Hf Hm Hs Hy Hc Hpk) as (frame & m' & -> & Hf2).
    cbn [mbind option_bind].
    match goal with
    | |- context [send_all G ?st rest] => remember st as this1 eqn:E1
    end.
    assert (seq this1 = (seq this + 1) mod 256) as Hq1 by (by subst this1).
    assert (srcSystem this1 = srcSystem this) as Hy1 by (by subst this1).
    assert (srcComponent this1 = srcComponent this) as Hc1 by (by subst this1).
    assert (total_packets_sent this1 = total_packets_sent this + 1) as Hp1
      by (by subst this1).
    assert (total_bytes_sent this1 = total_bytes_sent this + len frame) as Hb1
      by (by subst this1).
    assert (file this1 = Some (written ++ [frame])) as Hf1 by (by subst this1).
    assert (buf this1 = buf this /\ expected_length this1 = expected_length this
            /\ total_packets_received this1 = total_packets_received this
            /\ total_bytes_received this1 = total_bytes_received this
            /\ total_receive_errors this1 = total_receive_errors this)
      as (Hu1 & Hu2 & Hu3 & Hu4 & Hu5) by (by subst this1).
    clear E1.
    assert (is_octet (seq this1) = true) as Hs1.
    { apply is_octet_range. rewrite Hq1. apply Z.mod_pos_bound. lia. }
    destruct (IH this1 _ Hf1 Hs1 ltac:(by rewrite Hy1) ltac:(by rewrite Hc1))
      as (this' & frames & Hsend & Hfile & Hlen & Hseq & Hsq & Hps & Hbs & Hb & He
          & Hpr & Hbr & Hre).
    rewrite Hsend.
    exists this', (frame :: frames).
    assert (len (m :: rest) = len rest + 1) as Hlm
      by (unfold len; cbn [length]; lia).
    apply is_octet_range in Hs.
    split_and!.
    + reflexivity.
    + rewrite Hfile, <- app_assoc. reflexivity.
    + cbn [length]. by rewrite Hlen.
    + intros [|k] f Hk.
      * injection Hk as <-. rewrite Hf2. f_equal.
        change (Z.of_nat 0) with 0. rewrite Z.add_0_r, Z.mod_small by lia. done.
      * change ((frame :: frames) !! S k) with (frames !! k) in Hk.
        rewrite (Hseq k f Hk), Hq1. f_equal.
        rewrite Zplus_mod_idemp_l. f_equal. lia.
    + rewrite Hsq, Hq1, Hlm, Zplus_mod_idemp_l. f_equal. lia.
    + rewrite Hps, Hp1, Hlm. lia.
    + rewrite Hbs, Hb1. change (concat (frame :: frames)) with (frame ++ concat frames).
      rewrite len_app. lia.
    + congruence.
    + congruence.
    + congruence.
    + congruence.
    + congruence.
Qed.

End PackMore.

(** *** More on [decode] *)

Section DecodeMore.
Context `{OC : OpaqueCodec}.
Variable G : jsmodule.
Import Traffic.

Lemma set_from_is_Some i0 names args (props : gmap string jsval) e :
  is_Some (set_from i0 names args props !! e)
  <-> e ∈ names \/ is_Some (props !! e).
Proof.
  revert i0 props. induction names as [|e0 r IH]; intros i0 props.
  - simpl. rewrite elem_of_nil. tauto.
  - simpl. rewrite IH, elem_of_cons.
    destruct (decide (e = e0)) as [->|Hne].
    + rewrite lookup_insert_eq. split; [auto|]. intros _. right. eauto.
    + rewrite lookup_insert_ne by done. tauto.
Qed.

(** What [decode] returns, read from the frame. *)
Lemma decode_inr msgbuf m :
  decode G msgbuf = inr m ->
  exists mlen sq sy sc msgId rest t,
    msgbuf = 254 :: mlen :: sq :: sy :: sc :: msgId :: rest
    /\ mlen = len msgbuf - 8
    /\ mavlink_map G !! msgId = Some (m_class m)
    /\ Spec.transmitted_crc msgbuf
       = Spec.recomputed_crc (c_crc_extra (m_class m)) msgbuf
    /\ Unpack (c_format (m_class m)) rest = Some t
    /\ m_fields m = set_from 0 (c_fieldnames (m_class m))
                      (reorder (c_order_map (m_class m)) t)
                      (set_from 0 (c_fieldnames (m_class m)) [] ∅)
    /\ m_header m = Some {| h_msgId := msgId; h_mlen := mlen; h_seq := sq;
                            h_srcSystem := sy; h_srcComponent := sc |}
    /\ m_msgbuf m = Some msgbuf
    /\ m_crc m = Some [JNum (Spec.transmitted_crc msgbuf)].
Proof.
  destruct (Z.ltb_spec (len msgbuf) 6) as [Hshort|Hlong].
  - by rewrite decode_short.
  - destruct msgbuf as [|b0 [|b1 [|b2 [|b3 [|b4 [|b5 rest]]]]]];
      try (unfold len in Hlong; simpl in Hlong; lia).
    rewrite decode_long. cbv zeta.
    destruct (Z.eqb_spec b0 254) as [->|]; simpl negb; cbv iota; [|done].
    destruct (Z.eqb_spec b1 (len (254 :: b1 :: b2 :: b3 :: b4 :: b5 :: rest) - 8))
      as [Hb1|]; simpl negb; cbv iota; [|done].
    destruct (mavlink_map G !! b5) as [decoder|] eqn:Hlk; [|done].
    destruct (Z.eqb_spec (Spec.transmitted_crc (254 :: b1 :: b2 :: b3 :: b4 :: b5 :: rest))
                (Spec.recomputed_crc (c_crc_extra decoder)
                   (254 :: b1 :: b2 :: b3 :: b4 :: b5 :: rest))) as [Hcrc|];
      simpl negb; cbv iota; [|done].
    destruct (Unpack (c_format decoder) rest) as [t|] eqn:Hu; [|done].
    intros [= <-]. cbn [m_class m_fields m_header m_msgbuf m_crc].
    exists b1, b2, b3, b4, b5, rest, t. by split_and!.
Qed.

(** X14: a message that [decode] returns carries the frame it was decoded
    from as [msgbuf], the received checksum as [crc], and a header made of
    octets 1 to 5 of the frame; the frame starts with 254, its length octet
    is its length less 8, its class is the one registered under octet 5, and
    the checksum in its last two octets is the recomputed one. *)
Theorem decode_provenance (frame : list Z) (m : message) :
  decode G frame = inr m ->
  m_msgbuf m = Some frame
  /\ m_crc m = Some [JNum (Spec.transmitted_crc frame)]
  /\ m_header m = Some {| h_msgId := Spec.octet frame 5; h_mlen := Spec.octet frame 1;
                          h_seq := Spec.octet frame 2;
                          h_srcSystem := Spec.octet frame 3;
                          h_srcComponent := Spec.octet frame 4 |}
  /\ frame !! 0%nat = Some 254
  /\ Spec.octet frame 1 = len frame - 8
  /\ mavlink_map G !! Spec.octet frame 5 = Some (m_class m)
  /\ Spec.transmitted_crc frame = Spec.recomputed_crc (c_crc_extra (m_class m)) frame.
Proof.
  intros (mlen & sq & sy & sc & msgId & rest & t & -> & Hl & Hlk & Hcrc & _ & _
          & Hh & Hb & Hc)%decode_inr.
  by split_and!.
Qed.

(** X15: [decode] accepts a buffer of octets only if it has between 8 and
    263 octets. *)
Theorem decode_frame_size (frame : list Z) (m : message) :
  octets frame ->
  decode G frame = inr m ->
  8 <= len frame <= 263.
Proof.
  intros Ho (mlen & sq & sy & sc & msgId & rest & t & -> & Hl & _)%decode_inr.
  apply Forall_cons in Ho as [_ Ho]. apply Forall_cons in Ho as [Hm _].
  apply is_octet_range in Hm. lia.
Qed.

(** X16: for a class without field names of the runtime's own, the field
    properties of a message that [decode] returns are exactly the
    declared field names of its class; when these are pairwise distinct,
    field [i] holds the value that the reordering loop puts at index [i]:
    the unpacked value at index [order_map[i]], [undefined] when [i] or
    [order_map[i]] is beyond the unpacked values.  The values are unpacked
    from all octets behind the header. *)
Theorem decode_fields (frame : list Z) (m : message) :
  own_names_free (m_class m) ->
  decode G frame = inr m ->
  exists t,
    Unpack (c_format (m_class m)) (drop 6 frame) = Some t
    /\ (forall e, is_Some (m_fields m !! e) <-> e ∈ c_fieldnames (m_class m))
    /\ (NoDup (c_fieldnames (m_class m)) ->
        forall i e, c_fieldnames (m_class m) !! i = Some e ->
          m_fields m !! e
          = Some (if decide (i < length t)%nat
                  then default JUndef (c_order_map (m_class m) !! i ≫= fun j => t !! j)
                  else JUndef)).
Proof.
  intros _ (mlen & sq & sy & sc & msgId & rest & t & -> & _ & _ & _ & Hu & Hf & _)%decode_inr.
  exists t. split; [done|]. rewrite Hf. split.
  - intros e. rewrite !set_from_is_Some, lookup_empty.
    split; [|by auto]. intros [|[|[? ?]]]; done.
  - intros Hnd i e Hi.
    rewrite (set_from_lookup 0 _ _ _ e
               (fun e' => match index (c_fieldnames (m_class m)) e' with
                          | Some k => arg_at (reorder (c_order_map (m_class m)) t) k
                          | None => JUndef
                          end)).
    + rewrite (index_NoDup _ _ _ Hnd Hi). f_equal.
      unfold arg_at, reorder. rewrite list_lookup_imap.
      case_decide as Hlt.
      * by destruct (lookup_lt_is_Some_2 t i Hlt) as [x ->].
      * by rewrite (lookup_ge_None_2 t i) by lia.
    + apply list_elem_of_lookup. by exists i.
    + intros k e' Hk. by rewrite (index_NoDup _ _ _ Hnd Hk).
Qed.



End DecodeMore.

(** *** More on the stream parser *)

Section StreamMore.
Context `{OC : OpaqueCodec}.
Variable G : jsmodule.
Import Stream Traffic.

Lemma same_send_side_refl a : same_send_side a a.
Proof. by repeat split. Qed.

Lemma same_send_side_trans a b c :
  same_send_side a b -> same_send_side b c -> same_send_side a c.
Proof.
  intros (H1 & H2 & H3 & H4 & H5 & H6) (K1 & K2 & K3 & K4 & K5 & K6).
  repeat split; congruence.
Qed.

(** One [parseChar()] call without data: what it leaves alone, what it
    counts, and the expected length it leaves when it returns [null]. *)
Lemma parseChar_side this :
  let '(this', r) := parseChar G this None in
  same_send_side this this'
  /\ total_bytes_received this' = total_bytes_received this
  /\ total_packets_received this'
     = total_packets_received this
       + match r with Some (Message _) => 1 | _ => 0 end
  /\ (r = None -> forall b0 l rest, buf this' = b0 :: l :: rest ->
                  expected_length this' = l + 8).
Proof.
  unfold parseChar, parseChar_try, pushBuffer, parsePrefix.
  destruct this as [sq b bie sy sc el pm tps tbs tpr tbr tre]. simpl.
  destruct b as [|b0 r]; simpl.
  - unfold parseLength, parsePayload. simpl.
    destruct ((8 <=? el) && (el <=? len (@nil Z))) eqn:E; simpl.
    + apply andb_true_iff in E as [E1%Z.leb_le E2%Z.leb_le].
      unfold len in E2. simpl in E2. lia.
    + split_and!; [by repeat split|done|lia|done].
  - destruct (negb (b0 =? 254)) eqn:Hb0; simpl.
    + split_and!; [by repeat split|done|lia|done].
    + unfold parseLength. simpl.
      destruct r as [|l r]; simpl.
      * replace (2 <=? len [b0]) with false by done.
        unfold parsePayload. simpl.
        destruct ((8 <=? el) && (el <=? len [b0])) eqn:E; simpl.
        -- apply andb_true_iff in E as [E1%Z.leb_le E2%Z.leb_le].
           unfold len in E2. simpl in E2. lia.
        -- split_and!; [by repeat split|done|lia|done].
      * assert ((2 <=? len (b0 :: l :: r)) = true) as ->
          by (apply Z.leb_le; unfold len; simpl; lia).
        rewrite slice_0 by lia.
        change (take (Z.to_nat 2) (b0 :: l :: r)) with [b0; l].
        rewrite Unpack_BB. unfold parsePayload. simpl.
        destruct ((8 <=? l + 8) && (l + 8 <=? len (b0 :: l :: r))); simpl.
        -- destruct (decode G (slice (b0 :: l :: r) 0 (l + 8))); simpl;
             (split_and!; [by repeat split|done|lia|done]).
        -- split_and!; [by repeat split|done|lia|].
           intros _ b0' l' rest [= _ <- _]. done.
Qed.

Lemma message_bad_count ms : message_count ms + bad_count ms = len ms.
Proof.
  induction ms as [|[m|d e] r IH]; [done| |];
    cbn [message_count bad_count is_bad_data];
    unfold len in *; cbn [length]; lia.
Qed.

(** The loop of [parseBuffer]: what it leaves alone and what it counts. *)
Lemma parseBuffer_loop_side fuel this :
  let '(this', ms) := parseBuffer_loop G fuel this in
  same_send_side this this'
  /\ total_bytes_received this' = total_bytes_received this
  /\ total_packets_received this' = total_packets_received this + message_count ms
  /\ ((length (buf this) < fuel)%nat ->
      exists st, parseChar G st None = (this', None)).
Proof.
  revert this. induction fuel as [|fuel IH]; intros this; simpl.
  - split_and!; [apply same_send_side_refl|done|lia|lia].
  - pose proof (parseChar_side this) as Hs.
    pose proof (parseChar_next G this) as Hn.
    destruct (parseChar G this None) as [this1 [m|]] eqn:Hpc.
    + destruct Hs as (Hs1 & Hs2 & Hs3 & _). destruct Hn as (Hr & Hb & _).
      destruct (next G (buf this)) as [[m' b']|] eqn:E; [|done].
      simpl in Hr. injection Hr as ->. apply next_shrinks in E.
      specialize (IH this1).
      destruct (parseBuffer_loop G fuel this1) as [this2 ms].
      destruct IH as (I1 & I2 & I3 & I4).
      split_and!.
      * by eapply same_send_side_trans.
      * congruence.
      * rewrite I3, Hs3. destruct m'; cbn [message_count]; lia.
      * intros Hf. apply I4. rewrite Hb. lia.
    + destruct Hs as (Hs1 & Hs2 & Hs3 & _).
      split_and!; [done|done|simpl; lia|]. intros _. by exists this.
Qed.

(** [parseBuffer]: what it leaves alone, what it counts, and the call that
    ended it. *)
Lemma parseBuffer_side this s :
  let '(this', r) := parseBuffer G this s in
  same_send_side this this'
  /\ total_bytes_received this' = total_bytes_received this + len s
  /\ total_packets_received this'
     = total_packets_received this + message_count (results r)
  /\ exists st, parseChar G st None = (this', None).
Proof.
  unfold parseBuffer. rewrite parseChar_push.
  pose proof (parseChar_side (pushBuffer this (Some s))) as Hs.
  assert (same_send_side this (pushBuffer this (Some s))) as Hp by (by repeat split).
  assert (total_bytes_received (pushBuffer this (Some s))
          = total_bytes_received this + len s) as Hbr by done.
  assert (total_packets_received (pushBuffer this (Some s))
          = total_packets_received this) as Hpr by done.
  destruct (parseChar G (pushBuffer this (Some s)) None) as [this1 [m|]] eqn:Hpc.
  - destruct Hs as (Hs1 & Hs2 & Hs3 & _).
    pose proof (parseBuffer_loop_side (S (length (buf this1))) this1) as Hl.
    destruct (parseBuffer_loop G (S (length (buf this1))) this1) as [this2 ms].
    destruct Hl as (L1 & L2 & L3 & L4).
    split_and!.
    + eapply same_send_side_trans; [|exact L1]. by eapply same_send_side_trans.
    + congruence.
    + rewrite L3, Hs3, Hpr. change (results (Some (m :: ms))) with (m :: ms).
      destruct m; cbn [message_count]; lia.
    + apply L4. lia.
  - destruct Hs as (Hs1 & Hs2 & Hs3 & _).
    split_and!.
    + by eapply same_send_side_trans.
    + congruence.
    + rewrite Hs3, Hpr. change (results None) with (@nil parsed).
      cbn [message_count]. lia.
    + by eexists.
Qed.

(** X17: one [parseBuffer] call adds the number of octets pushed to
    [total_bytes_received], the number of decoded messages it returns to
    [total_packets_received] and the number of [bad_data] it returns to
    [total_receive_errors]; every result is one or the other; the sequence
    counter, the source identifiers, the marker property and the two sent
    counters are not touched. *)
Theorem parseBuffer_counters (this : MAVLink) (s : list Z) :
  let this' := (parseBuffer G this s).1 in
  let rs := results (parseBuffer G this s).2 in
  total_bytes_received this' = total_bytes_received this + len s
  /\ total_packets_received this' = total_packets_received this + message_count rs
  /\ total_receive_errors this' = total_receive_errors this + bad_count rs
  /\ message_count rs + bad_count rs = len rs
  /\ same_send_side this this'.
Proof.
  cbv zeta. pose proof (parseBuffer_side this s) as Hs.
  pose proof (parseBuffer_drain G this s) as Hd.
  destruct (parseBuffer G this s) as [this' r]. cbn [fst snd].
  destruct Hs as (S1 & S2 & S3 & _). destruct Hd as [_ He].
  split_and!; try done. apply message_bad_count.
Qed.

Lemma next_conserve b m b' : next G b = Some (m, b') -> msgbuf_of m ++ b' = b.
Proof.
  unfold next. destruct b as [|b0 r]; [done|].
  destruct (negb (b0 =? 254)); [by intros [= <- <-]|].
  destruct r as [|l r]; [done|].
  destruct (Z.leb_spec 8 (l + 8)); simpl; [|done].
  destruct (Z.leb_spec (l + 8) (len (b0 :: l :: r))) as [Hle|]; simpl; [|done].
  intros [= <- <-]. rewrite slice_0, slice_from_nonneg by lia.
  destruct (decode G (take (Z.to_nat (l + 8)) (b0 :: l :: r))) as [e|m'] eqn:E.
  - cbn [msgbuf_of]. apply take_drop.
  - apply decode_inr in E as (? & ? & ? & ? & ? & ? & ? & _ & _ & _ & _ & _ & _ & _ & Hb & _).
    cbn [msgbuf_of]. rewrite Hb. apply take_drop.
Qed.

Lemma drain_conserve fuel b :
  concat (map msgbuf_of (drain G fuel b).1) ++ (drain G fuel b).2 = b.
Proof.
  revert b. induction fuel as [|fuel IH]; intros b; [done|]. simpl.
  destruct (next G b) as [[m b']|] eqn:E; [|done].
  specialize (IH b'). destruct (drain G fuel b') as [ms b''].
  cbn [fst snd map concat] in *. rewrite <- app_assoc, IH.
  by apply next_conserve.
Qed.

(** X18: the parser neither drops nor invents octets: the [msgbuf] of the
    results of a [parseBuffer] call, in order, followed by the octets left in
    the buffer, are the octets that were buffered before followed by the
    octets pushed. *)
Theorem parseBuffer_conserves_octets (this : MAVLink) (s : list Z) :
  concat (map msgbuf_of (results (parseBuffer G this s).2))
  ++ buf (parseBuffer G this s).1
  = buf this ++ s.
Proof.
  pose proof (parseBuffer_drain G this s) as Hd.
  destruct (parseBuffer G this s) as [this' r]. cbn [fst snd].
  destruct Hd as [Hd _].
  pose proof (drain_conserve (S (length (buf this ++ s))) (buf this ++ s)) as Hc.
  fold (drain_all G (buf this ++ s)) in Hc. by rewrite <- Hd in Hc.
Qed.

Lemma next_None b :
  next G b = None ->
  b = [] \/ exists r, b = 254 :: r
                      /\ forall l r', r = l :: r' -> l < 0 \/ len b < l + 8.
Proof.
  unfold next. destruct b as [|b0 r]; [by left|].
  destruct (Z.eqb_spec b0 254) as [->|]; simpl negb; cbv iota; [|done].
  intros Hn. right. exists r. split; [done|]. intros l r' ->.
  destruct (Z.leb_spec 8 (l + 8)); [|lia].
  destruct (Z.leb_spec (l + 8) (len (254 :: l :: r'))); [done|lia].
Qed.

Lemma parseBuffer_leaves_partial_frame_aux this s :
  buf (parseBuffer G this s).1 = []
  \/ exists r, buf (parseBuffer G this s).1 = 254 :: r
               /\ forall l r', r = l :: r' ->
                    l < 0 \/ len (buf (parseBuffer G this s).1) < l + 8.
Proof.
  pose proof (parseBuffer_drain G this s) as Hd.
  destruct (parseBuffer G this s) as [this' r]. cbn [fst snd].
  destruct Hd as [Hd _].
  pose proof (drain_quiescent G (S (length (buf this ++ s))) (buf this ++ s)
                ltac:(lia)) as Hq.
  fold (drain_all G (buf this ++ s)) in Hq. rewrite <- Hd in Hq.
  by apply next_None.
Qed.

(** X19: when [parseBuffer] returns, the buffer is empty or starts with 254
    and holds less than a candidate frame (fewer than the length octet plus
    8 octets, when the length octet has arrived); and it returns [null]
    rather than an empty array when it has no result. *)
Theorem parseBuffer_leaves_partial_frame (this : MAVLink) (s : list Z) :
  (buf (parseBuffer G this s).1 = []
   \/ exists r, buf (parseBuffer G this s).1 = 254 :: r
                /\ forall l r', r = l :: r' ->
                     l < 0 \/ len (buf (parseBuffer G this s).1) < l + 8)
  /\ ((parseBuffer G this s).2 = None <-> results (parseBuffer G this s).2 = []).
Proof.
  split.
  - apply parseBuffer_leaves_partial_frame_aux.
  - unfold parseBuffer. destruct (parseChar G this (Some s)) as [this1 [m|]].
    + by destruct (parseBuffer_loop G _ this1).
    + done.
Qed.

Lemma next_candidate l tl rest :
  0 <= l -> len (254 :: l :: tl) = l + 8 ->
  next G ((254 :: l :: tl) ++ rest)
  = Some (match decode G (254 :: l :: tl) with
          | inr m => Message m
          | inl e => bad_data (254 :: l :: tl) e
          end, rest).
Proof.
  intros Hl Hlen. cbn [app next]. change (negb (254 =? 254)) with false.
  cbv iota.
  change (254 :: l :: tl ++ rest) with ((254 :: l :: tl) ++ rest).
  rewrite len_app.
  rewrite (proj2 (Z.leb_le 8 (l + 8))) by lia.
  rewrite (proj2 (Z.leb_le (l + 8) _)) by (pose proof (len_nonneg rest); lia).
  cbn [andb]. rewrite slice_0, slice_from_nonneg by lia.
  replace (Z.to_nat (l + 8)) with (length (254 :: l :: tl)) by (unfold len in Hlen; lia).
  by rewrite take_app_length, drop_app_length.
Qed.

(** X20: on a connection with an empty buffer, octets that begin with a
    candidate frame (marker 254, a length octet [l], [l + 8] octets in all)
    give as first result the message that [decode] makes of the candidate,
    or, when [decode] throws, a [bad_data] carrying the whole candidate and
    the error; the remaining results are those of the octets behind the
    candidate. *)
Theorem parseBuffer_candidate (this : MAVLink) (l : Z) (tl rest : list Z) :
  buf this = [] ->
  0 <= l ->
  len (254 :: l :: tl) = l + 8 ->
  results (parseBuffer G this ((254 :: l :: tl) ++ rest)).2
  = match decode G (254 :: l :: tl) with
    | inr m => Message m
    | inl e => bad_data (254 :: l :: tl) e
    end :: results (parseBuffer G this rest).2.
Proof.
  intros Hb Hl Hlen.
  pose proof (parseBuffer_drain G this ((254 :: l :: tl) ++ rest)) as H1.
  pose proof (parseBuffer_drain G this rest) as H2.
  destruct (parseBuffer G this ((254 :: l :: tl) ++ rest)) as [t1 r1].
  destruct (parseBuffer G this rest) as [t2 r2]. cbn [fst snd].
  destruct H1 as [H1 _]. destruct H2 as [H2 _].
  rewrite Hb in H1, H2. rewrite app_nil_l in H1, H2.
  rewrite (drain_all_step G _ _ _ (next_candidate l tl rest Hl Hlen)) in H1.
  rewrite <- H2 in H1. by injection H1 as -> _.
Qed.

Lemma decode_octet_frame f m :
  decode G f = inr m -> octets f ->
  exists l tl, f = 254 :: l :: tl /\ 0 <= l /\ len f = l + 8.
Proof.
  intros (mlen & sq & sy & sc & msgId & rest & t & -> & Hl & _)%decode_inr Ho.
  apply Forall_cons in Ho as [_ Ho]. apply Forall_cons in Ho as [Hm _].
  apply is_octet_range in Hm. eexists _, _. split; [done|]. lia.
Qed.

Lemma drain_all_frames frames ms :
  Forall2 (fun f m => decode G f = inr m /\ octets f) frames ms ->
  drain_all G (concat frames) = (map Message ms, []).
Proof.
  induction 1 as [|f m frames ms [Hd Ho] _ IH].
  - by apply drain_all_stop.
  - destruct (decode_octet_frame f m Hd Ho) as (l & tl & -> & Hl & Hlen).
    cbn [concat].
    rewrite (drain_all_step G _ _ _ (next_candidate l tl _ Hl Hlen)).
    by rewrite IH, Hd.
Qed.

Lemma counts_noise_messages (noise : list Z) (ms : list message) :
  message_count (map (fun b => bad_data [b] (BadPrefix b)) noise ++ map Message ms)
  = len ms
  /\ bad_count (map (fun b => bad_data [b] (BadPrefix b)) noise ++ map Message ms)
     = len noise.
Proof.
  induction noise as [|b r [IH1 IH2]].
  - cbn [map app]. induction ms as [|m ms [IH1 IH2]]; [done|].
    cbn [map message_count bad_count is_bad_data]. rewrite IH1, IH2.
    unfold len. cbn [length]. lia.
  - cbn [map app message_count bad_count is_bad_data]. rewrite IH1, IH2.
    unfold len. cbn [length]. lia.
Qed.

(** X21: on a connection with an empty buffer, octets made of noise without
    the octet 254 followed by frames of octets that [decode] accepts give
    one [bad_data] per noise octet followed by exactly the decoded messages
    of the frames, in order; the buffer is empty afterwards,
    [total_packets_received] has grown by the number of frames and
    [total_receive_errors] by the number of noise octets. *)
Theorem parseBuffer_frames (this : MAVLink) (noise : list Z)
    (frames : list (list Z)) (ms : list message) :
  buf this = [] ->
  Forall (fun b => b <> 254) noise ->
  Forall2 (fun f m => decode G f = inr m /\ octets f) frames ms ->
  results (parseBuffer G this (noise ++ concat frames)).2
  = map (fun b => bad_data [b] (BadPrefix b)) noise ++ map Message ms
  /\ buf (parseBuffer G this (noise ++ concat frames)).1 = []
  /\ total_packets_received (parseBuffer G this (noise ++ concat frames)).1
     = total_packets_received this + len ms
  /\ total_receive_errors (parseBuffer G this (noise ++ concat frames)).1
     = total_receive_errors this + len noise.
Proof.
  intros Hb Hn Hf.
  pose proof (parseBuffer_drain G this (noise ++ concat frames)) as Hd.
  pose proof (parseBuffer_side this (noise ++ concat frames)) as Hs.
  destruct (parseBuffer G this (noise ++ concat frames)) as [this' r].
  cbn [fst snd]. destruct Hd as [Hd He]. destruct Hs as (_ & _ & Hp & _).
  rewrite Hb, app_nil_l, drain_all_app in Hd.
  rewrite (drain_all_no_marker G noise Hn) in Hd. cbn [fst snd] in Hd.
  rewrite app_nil_l, (drain_all_frames _ _ Hf) in Hd. cbn [fst snd] in Hd.
  injection Hd as Hr Hbuf.
  destruct (counts_noise_messages noise ms) as [Hc1 Hc2].
  rewrite Hp, He, Hr, Hc1, Hc2. done.
Qed.

Lemma bytes_needed_pos this : 1 <= bytes_needed this.
Proof. unfold bytes_needed. destruct (Z.leb_spec (expected_length this - len (buf this)) 0); lia. Qed.

(** X22: [bytes_needed] is at least 1.  After a [parseBuffer] call that
    leaves at least two octets buffered, the second not negative,
    [bytes_needed] is the number of octets still missing from the candidate
    frame: pushing that many octets yields exactly one result and leaves the
    buffer empty. *)
Theorem bytes_needed_completes_frame (this : MAVLink) (s d : list Z) :
  let this' := (parseBuffer G this s).1 in
  1 <= bytes_needed this'
  /\ forall b0 l rest,
       buf this' = b0 :: l :: rest -> 0 <= l -> len d = bytes_needed this' ->
       bytes_needed this' = l + 8 - len (buf this')
       /\ length (results (parseBuffer G this' d).2) = 1%nat
       /\ buf (parseBuffer G this' d).1 = [].
Proof.
  cbv zeta. split; [apply bytes_needed_pos|].
  intros b0 l rest Hbuf Hl Hd.
  pose proof (parseBuffer_leaves_partial_frame_aux this s) as Hq.
  pose proof (parseBuffer_side this s) as Hs.
  destruct (parseBuffer G this s) as [this' r]. cbn [fst snd] in *.
  destruct Hs as (_ & _ & _ & st & Hlast).
  pose proof (parseChar_side st) as Hside. rewrite Hlast in Hside.
  destruct Hside as (_ & _ & _ & Hel). specialize (Hel eq_refl _ _ _ Hbuf).
  destruct Hq as [Hq|(r' & Hq & Hpart)]; [congruence|].
  rewrite Hbuf in Hq. injection Hq as -> <-.
  destruct (Hpart l rest eq_refl) as [|Hshort]; [lia|].
  assert (bytes_needed this' = l + 8 - len (buf this')) as Hbn.
  { unfold bytes_needed. rewrite Hel.
    destruct (Z.leb_spec (l + 8 - len (buf this')) 0); lia. }
  split; [done|].
  pose proof (parseBuffer_drain G this' d) as Hdr.
  destruct (parseBuffer G this' d) as [this'' r'']. cbn [fst snd].
  destruct Hdr as [Hdr _]. rewrite Hbuf in Hdr.
  assert (len (254 :: l :: rest ++ d) = l + 8) as Hlen.
  { change (254 :: l :: rest ++ d) with ((254 :: l :: rest) ++ d).
    rewrite len_app, <- Hbuf. lia. }
  change ((254 :: l :: rest) ++ d) with (254 :: l :: rest ++ d) in Hdr.
  pose proof (next_candidate l (rest ++ d) [] Hl Hlen) as Hnx.
  rewrite app_nil_r in Hnx.
  rewrite (drain_all_step G _ _ _ Hnx) in Hdr.
  rewrite (drain_all_stop G [] eq_refl) in Hdr. cbn [fst snd] in Hdr.
  by injection Hdr as -> ->.
Qed.

End StreamMore.

(** *** Instances on the concrete dialect *)

Import Dialect.

Lemma heartbeat_names_free : own_names_free HEARTBEAT_class.
Proof.
  unfold own_names_free. apply (bool_decide_unpack _). vm_compute. exact I.
Defined.

Lemma tag_names_free : own_names_free TAG_class.
Proof.
  unfold own_names_free. apply (bool_decide_unpack _). vm_compute. exact I.
Defined.

Lemma send_updates_witness :
  exists frame mavmsg',
    frame !! 2%nat = Some (seq mav11_file)
    /\ len frame = len (replicate 9 0) + 8
    /\ send v10 mav11_file heartbeat0
       = Some ({| seq := (seq mav11_file + 1) mod 256;
                  buf := buf mav11_file;
                  bufInError := bufInError mav11_file;
                  srcSystem := srcSystem mav11_file;
                  srcComponent := srcComponent mav11_file;
                  expected_length := expected_length mav11_file;
                  protocol_marker := protocol_marker mav11_file;
                  total_packets_sent := total_packets_sent mav11_file + 1;
                  total_bytes_sent := total_bytes_sent mav11_file + len frame;
                  total_packets_received := total_packets_received mav11_file;
                  total_bytes_received := total_bytes_received mav11_file;
                  total_receive_errors := total_receive_errors mav11_file;
                  file := Some ([] ++ [frame]) |},
               mavmsg', Returns).
Proof.
  destruct (send_updates v10 mav11_file heartbeat0 (replicate 9 0))
    as (frame & mavmsg' & _ & H2 & Hl & Hs);
    [exact heartbeat_names_free | reflexivity..|].
  exists frame, mavmsg'. split; [exact H2|]. split; [exact Hl|exact Hs].
Defined.

(** C8 as stated fails on a connection as the constructor leaves it: no
    transport is attached, [send] packs the message and then throws, and
    the sequence counter and the sent counters are what they were. *)
Lemma send_without_file_counterexample :
  mav11 = new_MAVLink (Some 1) (Some 1)
  /\ file mav11 = None
  /\ exists this' mavmsg',
       send v10 mav11 heartbeat0 = Some (this', mavmsg', Throws_TypeError)
       /\ this' = mav11
       /\ seq this' <> (seq mav11 + 1) mod 256
       /\ total_packets_sent this' <> total_packets_sent mav11 + 1
       /\ total_bytes_sent this' <> total_bytes_sent mav11 + len heartbeat_frame.
Proof.
  split; [reflexivity|]. split; [reflexivity|].
  eexists _, _. split; [vm_compute; reflexivity|].
  split; [reflexivity|]. split_and!; vm_compute; discriminate.
Qed.

(** C1 as stated fails on a short string and on a numeric array.  The
    [char[4]] field of TAG set to the two characters "ab" is a valid value
    of the field, the class is registered and the connection is in range,
    yet the decoded field is the four characters "ab\0\0", the string padded
    to the declared length.  The [uint16_t[2]] field of PAIR set to the
    array [[1, 2]] is a valid value of the field and the class is
    registered, yet [pack] hands jspack one value for an item that takes
    two, and no frame comes back. *)
Lemma roundtrip_counterexample :
  (PROTOCOL_MARKER v10 = 254
   /\ Roundtrip.registered v10 (m_class tag_ab)
   /\ Roundtrip.octet_context mav11
   /\ Roundtrip.valid_assignment false tag_ab
   /\ m_fields tag_ab !! "label" = Some (JStr [97; 98])
   /\ (exists frame m', snd <$> pack v10 tag_ab mav11 = Some frame
                        /\ decode v10 frame = inr m'
                        /\ m_fields m' !! "label" = Some (JStr [97; 98; 0; 0]))
   /\ ~ Roundtrip.roundtrips v10 mav11 tag_ab)
  /\ (PROTOCOL_MARKER pairs = 254
      /\ generate [{| Mavgen.message := [PAIR]; Mavgen.protocol_marker := 254;
                      little_endian := true |}] = Some pairs
      /\ Roundtrip.registered pairs (m_class pair_12)
      /\ m_fields pair_12 !! "xy" = Some (JArr [1; 2])
      /\ pack pairs pair_12 mav11 = None
      /\ ~ Roundtrip.roundtrips pairs mav11 pair_12).
Proof.
  split; split_and!.
  - reflexivity.
  - split_and!; try reflexivity.
    + vm_compute. lia.
    + exists TAG, true. split; reflexivity.
  - by split_and!.
  - unfold Roundtrip.valid_assignment. cbn.
    apply List.Forall2_cons; [|apply List.Forall2_nil].
    exists [97; 98]. split_and!; [reflexivity..|]. unfold item_count. simpl. lia.
  - reflexivity.
  - exists [254; 4; 0; 1; 1; 1; 97; 98; 0; 0; 128; 72]. eexists.
    split; [vm_compute; reflexivity|].
    split; vm_compute; reflexivity.
  - intros (frame & m' & Hp & Hd & Hf).
    assert (snd <$> pack v10 tag_ab mav11
            = Some [254; 4; 0; 1; 1; 1; 97; 98; 0; 0; 128; 72]) as Hp'
      by (vm_compute; reflexivity).
    rewrite Hp' in Hp. injection Hp as <-.
    vm_compute in Hd. injection Hd as <-.
    specialize (Hf "label" ltac:(apply list_elem_of_here)).
    vm_compute in Hf. clear Hp'. discriminate Hf.
  - reflexivity.
  - reflexivity.
  - split_and!; try reflexivity.
    + vm_compute. lia.
    + exists PAIR, true. split; reflexivity.
  - reflexivity.
  - vm_compute. reflexivity.
  - intros (frame & m' & Hp & _).
    vm_compute in Hp. discriminate Hp.
Qed.

Lemma pack_decode_roundtrip_witness :
  Roundtrip.roundtrips v10 mav11 heartbeat_1to6
  /\ Roundtrip.roundtrips_padded v10 mav11 tag_ab.
Proof.
  assert (Roundtrip.octet_context mav11) as Hctx by (by split_and!).
  split.
  - assert (Roundtrip.registered v10 (m_class heartbeat_1to6)) as Hreg.
    { split_and!; try reflexivity.
      + vm_compute. lia.
      + exists HEARTBEAT, true. split; [reflexivity|].
        simpl. solve_Permutation. }
    assert (forall ex, Roundtrip.valid_assignment ex heartbeat_1to6) as Hv.
    { intros ex. unfold Roundtrip.valid_assignment. cbn.
      repeat (apply List.Forall2_cons;
                [eexists; (split; [reflexivity|vm_compute; split; discriminate])|]).
      apply List.Forall2_nil. }
    exact (proj1 (pack_decode_roundtrip v10 mav11 heartbeat_1to6 eq_refl Hreg
                    heartbeat_names_free Hctx (Hv false)) (Hv true)).
  - assert (Roundtrip.registered v10 (m_class tag_ab)) as Hreg.
    { split_and!; try reflexivity.
      + vm_compute. lia.
      + exists TAG, true. split; reflexivity. }
    assert (Roundtrip.valid_assignment false tag_ab) as Hv.
    { unfold Roundtrip.valid_assignment. cbn.
      apply List.Forall2_cons; [|apply List.Forall2_nil].
      exists [97; 98]. split_and!; [reflexivity..|]. unfold item_count. simpl. lia. }
    assert (NoDup (c_fieldnames (m_class tag_ab))) as Hnd
      by (apply (bool_decide_unpack _); vm_compute; exact I).
    exact (proj2 (pack_decode_roundtrip v10 mav11 tag_ab eq_refl Hreg
                    tag_names_free Hctx Hv) Hnd).
Defined.

(** *** Instances of the further properties *)

Import Traffic.

Lemma generate_order_map_witness :
  length (c_order_map HEARTBEAT_class) = length (fieldnames HEARTBEAT)
  /\ forall i e, fieldnames HEARTBEAT !! i = Some e ->
       exists j, c_order_map HEARTBEAT_class !! i = Some j
                 /\ ordered_fieldnames HEARTBEAT !! j = Some e
                 /\ forall j', (j' < j)%nat -> ordered_fieldnames HEARTBEAT !! j' <> Some e.
Proof.
  apply (generate_order_map true HEARTBEAT HEARTBEAT_class). reflexivity.
Defined.

Lemma generate_order_map_permutation_witness :
  c_order_map HEARTBEAT_class ≡ₚ List.seq 0%nat (length (fields HEARTBEAT)).
Proof.
  apply (generate_order_map_permutation true HEARTBEAT HEARTBEAT_class).
  - reflexivity.
  - apply (bool_decide_unpack _). vm_compute. exact I.
  - simpl. solve_Permutation.
Defined.

Lemma generate_module_witness :
  PROTOCOL_MARKER v10 = Mavgen.protocol_marker (dialect_xml 254)
  /\ Forall2 (fun mt c => generate_message (little_endian (dialect_xml 254)) mt = Some c)
       (concat (map Mavgen.message [dialect_xml 254])) (messages v10)
  /\ Forall (fun c => bBE (c_format c) = negb (little_endian (dialect_xml 254)))
       (messages v10)
  /\ forall k, mavlink_map v10 !! k = last (filter (fun c => c_id c = k) (messages v10)).
Proof.
  apply (generate_module (dialect_xml 254) [] v10). reflexivity.
Defined.

Lemma jspackFilename_location_witness :
  Paths.jspackFilename (Ascii.ascii_of_nat 47) (String.list_ascii_of_string "mavlink")
  = String.list_ascii_of_string "jspack.js"
  /\ Paths.jspackFilename (Ascii.ascii_of_nat 47) (String.list_ascii_of_string "out/v1/mavlink")
     = String.list_ascii_of_string "out/v1" ++ String.list_ascii_of_string "/jspack.js".
Proof.
  split.
  - apply (proj1 (jspackFilename_location (Ascii.ascii_of_nat 47)
                    (String.list_ascii_of_string "mavlink"))).
    apply (bool_decide_unpack _). vm_compute. exact I.
  - apply (proj2 (jspackFilename_location (Ascii.ascii_of_nat 47)
                    (String.list_ascii_of_string "out/v1/mavlink"))
             (String.list_ascii_of_string "out/v1")
             (String.list_ascii_of_string "mavlink")).
    + reflexivity.
    + apply (bool_decide_unpack _). vm_compute. exact I.
Defined.

Lemma filename_js_witness :
  Paths.filename (String.list_ascii_of_string "out/mavlink.js")
  = String.list_ascii_of_string "out/mavlink.js".
Proof.
  destruct (filename_js (String.list_ascii_of_string "out/mavlink.js"))
    as (_ & _ & H & _).
  apply H. vm_compute. reflexivity.
Defined.

Lemma x25Crc_range_witness : 0 <= x25Crc [1; 2; 3] (Some 70000) < 65536.
Proof.
  apply (proj1 (x25Crc_range [1; 2; 3] (Some 70000))). discriminate.
Defined.

Lemma x25Crc_continue_witness :
  x25Crc [50] (Some (x25Crc [9; 0; 1; 1; 0] None)) = x25Crc ([9; 0; 1; 1; 0] ++ [50]) None.
Proof.
  apply (proj1 (x25Crc_continue [9; 0; 1; 1; 0] [50] None)).
  vm_compute. discriminate.
Defined.

Lemma message_pack_layout_witness :
  exists crc m',
    0 <= crc < 65536
    /\ message_pack v10 heartbeat0 mav11 50 (replicate 9 0)
       = Some (m', [PROTOCOL_MARKER v10; len (replicate 9 0); seq mav11;
                    srcSystem mav11; srcComponent mav11; c_id (m_class heartbeat0)]
                   ++ replicate 9 0 ++ [crc mod 256; crc / 256]).
Proof.
  destruct (message_pack_layout v10 heartbeat0 mav11 50 (replicate 9 0))
    as (crc & m' & _ & Hr & Hp & _); [exact heartbeat_names_free|reflexivity..|].
  exists crc, m'. exact (conj Hr Hp).
Defined.

Lemma pack_frame_width_witness :
  length heartbeat_frame = (8 + CalcLength (items (c_format (m_class heartbeat0))))%nat
  /\ heartbeat_frame !! 1%nat
     = Some (Z.of_nat (CalcLength (items (c_format (m_class heartbeat0))))).
Proof.
  assert (exists m', pack v10 heartbeat0 mav11 = Some (m', heartbeat_frame)) as [m' E]
    by (eexists; vm_compute; reflexivity).
  destruct (pack_frame_width v10 heartbeat0 m' mav11 heartbeat_frame
              heartbeat_names_free E)
    as (H1 & _ & H3 & _).
  exact (conj H1 H3).
Defined.

Lemma set_fields_witness :
  m_fields (set heartbeat0 [JNum 1; JNum 2; JNum 3; JNum 4]) !! "custom_mode"
  = Some (arg_at [JNum 1; JNum 2; JNum 3; JNum 4] 3).
Proof.
  assert (NoDup (c_fieldnames (m_class heartbeat0))) as Hnd
    by (apply (bool_decide_unpack _); vm_compute; exact I).
  exact (proj1 (set_fields heartbeat0 [JNum 1; JNum 2; JNum 3; JNum 4]
                  heartbeat_names_free Hnd)
           3%nat "custom_mode" eq_refl).
Defined.

Lemma send_all_sequence_witness :
  exists this' frames,
    send_all v10 mav11_file [heartbeat0; heartbeat0] = Some (this', Returns)
    /\ file this' = Some ([] ++ frames)
    /\ length frames = length [heartbeat0; heartbeat0]
    /\ seq this' = (seq mav11_file + len [heartbeat0; heartbeat0]) mod 256.
Proof.
  assert (packable heartbeat0) as Hp.
  { split; [exact heartbeat_names_free|].
    exists (replicate 9 0). split; [reflexivity|]. split; reflexivity. }
  destruct (send_all_sequence v10 mav11_file [] [heartbeat0; heartbeat0])
    as (this' & frames & H1 & H2 & H3 & _ & H5 & _); [reflexivity..| |].
  - apply Forall_cons. split; [exact Hp|]. apply Forall_cons. split; [exact Hp|].
    apply Forall_nil_2.
  - exists this', frames. exact (conj H1 (conj H2 (conj H3 H5))).
Defined.

Lemma decode_provenance_witness :
  exists m, decode v10 heartbeat_frame = inr m
            /\ m_msgbuf m = Some heartbeat_frame
            /\ m_crc m = Some [JNum (Spec.transmitted_crc heartbeat_frame)].
Proof.
  assert (exists m, decode v10 heartbeat_frame = inr m) as [m E]
    by (eexists; vm_compute; reflexivity).
  destruct (decode_provenance v10 heartbeat_frame m E) as (H1 & H2 & _).
  exists m. exact (conj E (conj H1 H2)).
Defined.

Lemma decode_frame_size_witness : 8 <= len heartbeat_frame <= 263.
Proof.
  assert (exists m, decode v10 heartbeat_frame = inr m) as [m E]
    by (eexists; vm_compute; reflexivity).
  apply (decode_frame_size v10 heartbeat_frame m); [|exact E].
  unfold octets. apply (bool_decide_unpack _). vm_compute. exact I.
Defined.

Lemma decode_fields_witness :
  exists m t, decode v10 heartbeat_frame = inr m
              /\ Unpack (c_format (m_class m)) (drop 6 heartbeat_frame) = Some t
              /\ (forall e, is_Some (m_fields m !! e) <-> e ∈ c_fieldnames (m_class m)).
Proof.
  assert (exists m, decode v10 heartbeat_frame = inr m
                    /\ m_class m = HEARTBEAT_class) as (m & E & Hc)
    by (eexists; split; vm_compute; reflexivity).
  assert (own_names_free (m_class m)) as Hfree
    by (rewrite Hc; exact heartbeat_names_free).
  destruct (decode_fields v10 heartbeat_frame m Hfree E) as (t & H1 & H2 & _).
  exists m, t. exact (conj E (conj H1 H2)).
Defined.


Lemma parseBuffer_candidate_witness :
  results (parseBuffer v10 mav11 ((254 :: 9 :: drop 2 heartbeat_frame) ++ [1])).2
  = match decode v10 (254 :: 9 :: drop 2 heartbeat_frame) with
    | inr m => Message m
    | inl e => bad_data (254 :: 9 :: drop 2 heartbeat_frame) e
    end :: results (parseBuffer v10 mav11 [1]).2.
Proof.
  apply (parseBuffer_candidate v10 mav11 9 (drop 2 heartbeat_frame) [1]).
  - reflexivity.
  - lia.
  - reflexivity.
Defined.

Lemma parseBuffer_frames_witness :
  exists m,
    results (parseBuffer v10 mav11 ([1; 2] ++ concat [heartbeat_frame])).2
    = map (fun b => bad_data [b] (BadPrefix b)) [1; 2] ++ map Message [m]
    /\ buf (parseBuffer v10 mav11 ([1; 2] ++ concat [heartbeat_frame])).1 = [].
Proof.
  assert (exists m, decode v10 heartbeat_frame = inr m) as [m E]
    by (eexists; vm_compute; reflexivity).
  exists m.
  destruct (parseBuffer_frames v10 mav11 [1; 2] [heartbeat_frame] [m])
    as (H1 & H2 & _).
  - reflexivity.
  - apply Forall_cons. split; [lia|]. apply Forall_cons. split; [lia|].
    apply Forall_nil_2.
  - apply List.Forall2_cons; [|apply List.Forall2_nil]. split; [exact E|].
    unfold octets. apply (bool_decide_unpack _). vm_compute. exact I.
  - exact (conj H1 H2).
Defined.

Lemma bytes_needed_completes_frame_witness :
  length (results (parseBuffer v10 (parseBuffer v10 mav11 (take 5 heartbeat_frame)).1
                     (drop 5 heartbeat_frame)).2) = 1%nat.
Proof.
  destruct (bytes_needed_completes_frame v10 mav11 (take 5 heartbeat_frame)
              (drop 5 heartbeat_frame)) as [_ H].
  destruct (H 254 9 [0; 1; 1]) as (_ & H1 & _).
  - vm_compute. reflexivity.
  - lia.
  - vm_compute. reflexivity.
  - exact H1.
Defined.
